(** * Catalog flattening: translation records to CSV rows

    A shallow embedding of [main.py]: the record aggregation loop (STEP 1),
    the nutrient splitter [parse_nutrients] with its two regular expressions,
    the field extractors [extract_field] and [extract_description] over a
    parsed document, the row builder [build_rows_for_product] and the final
    row loop (STEP 4).

    Python [str] values are sequences of Unicode code points; a value read
    from the input is a string or [None]; the document a markup parser
    returns is a tree of tags and strings, and documents are objects on a
    heap; a computation returns or raises. [str.lower] and the markup parser
    are parameters. *)

From Stdlib Require Import String Ascii.
From Stdlib Require Import List NArith Arith Bool Lia.
Import ListNotations.

Local Open Scope N_scope.

(** ** Python strings *)

Definition char := N.
Definition str := list char.

(** Literals are written as UTF-8 text and decoded to code points. *)
Fixpoint utf8_decode (bs : list N) : str :=
  match bs with
  | [] => []
  | b :: t =>
      if b <? 128 then b :: utf8_decode t
      else if b <? 224 then
        match t with
        | b1 :: t1 => ((b - 192) * 64 + (b1 - 128)) :: utf8_decode t1
        | _ => []
        end
      else if b <? 240 then
        match t with
        | b1 :: b2 :: t2 =>
            ((b - 224) * 4096 + (b1 - 128) * 64 + (b2 - 128)) :: utf8_decode t2
        | _ => []
        end
      else
        match t with
        | b1 :: b2 :: b3 :: t3 =>
            ((b - 240) * 262144 + (b1 - 128) * 4096 + (b2 - 128) * 64 + (b3 - 128))
              :: utf8_decode t3
        | _ => []
        end
  end.

Definition py (s : string) : str :=
  utf8_decode (map N_of_ascii (list_ascii_of_string s)).
Arguments py s%_string.

Definition str_eqb (a b : str) : bool :=
  if list_eq_dec N.eq_dec a b then true else false.

(** [str.isspace] on one code point: the characters [str.strip()] removes. *)
Definition isspace (c : char) : bool :=
  ((9 <=? c) && (c <=? 13)) || ((28 <=? c) && (c <=? 32))
  || (c =? 133) || (c =? 160) || (c =? 5760)
  || ((8192 <=? c) && (c <=? 8202))
  || (c =? 8232) || (c =? 8233) || (c =? 8239) || (c =? 8287) || (c =? 12288).

Fixpoint lstrip (s : str) : str :=
  match s with
  | c :: s' => if isspace c then lstrip s' else s
  | [] => []
  end.

Definition rstrip (s : str) : str := rev (lstrip (rev s)).

(** [s.strip()] *)
Definition strip (s : str) : str := rstrip (lstrip s).

Fixpoint startswith (s pre : str) {struct pre} : bool :=
  match pre, s with
  | [], _ => true
  | a :: pre', b :: s' => (a =? b) && startswith s' pre'
  | _ :: _, [] => false
  end.

(** [sub in s] *)
Fixpoint str_in (sub s : str) : bool :=
  startswith s sub
  || match s with
     | [] => false
     | _ :: s' => str_in sub s'
     end.

(** A value read from the JSON input or passed around by the script: a
    string, or [None] (a JSON null). *)
Definition value := option str.

(** Truth value of a string or [None]: both [None] and the empty string
    are falsy. *)
Definition truthy (v : value) : bool :=
  match v with
  | Some (_ :: _) => true
  | _ => false
  end.

(** What the script can raise. [NoSuchObject] is a reference to no object;
    no run reaches it. *)
Inductive exn : Type := TypeError | KeyError | NoSuchObject.

Inductive result (A : Type) : Type :=
| Ok (a : A)
| Raise (e : exn).
Arguments Ok {A} a.
Arguments Raise {A} e.

(** ** The [re] fragment the two patterns use

    A backtracking matcher in continuation-passing style: a greedy repetition
    tries the longest run first, a lazy one the shortest, and each gives way
    to the next alternative when the rest of the pattern fails. *)

Inductive charset : Type :=
| Lit (c : char)      (* \( and \) *)
| NotLit (c : char)   (* [^,] and [^)] *)
| Dot.                (* . without DOTALL: anything but a line feed *)

Definition charset_matches (cs : charset) (c : char) : bool :=
  match cs with
  | Lit a => c =? a
  | NotLit a => negb (c =? a)
  | Dot => negb (c =? 10)
  end.

Inductive regex : Type :=
| One (cs : charset)
| Star (cs : charset)        (* cs*  *)
| Plus (cs : charset)        (* cs+  *)
| LazyStar (cs : charset)    (* cs*? *)
| Seq (r1 r2 : regex)
| Group (r : regex).

Section Matcher.
Context {R : Type}.

Fixpoint star_greedy (cs : charset) (s : str) (k : str -> option R) : option R :=
  match s with
  | c :: s' =>
      if charset_matches cs c then
        match star_greedy cs s' k with
        | Some r => Some r
        | None => k s
        end
      else k s
  | [] => k []
  end.

Fixpoint star_lazy (cs : charset) (s : str) (k : str -> option R) : option R :=
  match k s with
  | Some r => Some r
  | None =>
      match s with
      | c :: s' => if charset_matches cs c then star_lazy cs s' k else None
      | [] => None
      end
  end.

Definition one_char (cs : charset) (s : str) (k : str -> option R) : option R :=
  match s with
  | c :: s' => if charset_matches cs c then k s' else None
  | [] => None
  end.

(** [gs] are the groups closed so far, in closing order. *)
Fixpoint exec (r : regex) (s : str) (gs : list str)
         (k : str -> list str -> option R) : option R :=
  match r with
  | One cs => one_char cs s (fun s' => k s' gs)
  | Star cs => star_greedy cs s (fun s' => k s' gs)
  | Plus cs => one_char cs s (fun s1 => star_greedy cs s1 (fun s' => k s' gs))
  | LazyStar cs => star_lazy cs s (fun s' => k s' gs)
  | Seq r1 r2 => exec r1 s gs (fun s' gs' => exec r2 s' gs' k)
  | Group r1 =>
      exec r1 s gs
        (fun s' gs' => k s' (gs' ++ [firstn (length s - length s') s]))
  end.
End Matcher.

(** [pattern.match(s)]: the groups and the text left after the match. *)
Definition re_match (r : regex) (s : str) : option (list str * str) :=
  exec r s [] (fun s' gs => Some (gs, s')).

(** [pattern.findall(s)] for a pattern with one group: scan left to right,
    keep group 1 of every match and resume where the match ended; where the
    pattern does not match (or matches the empty string), move one character
    on. [fuel] bounds the number of positions tried. *)
Fixpoint findall_from (fuel : nat) (r : regex) (s : str) : list str :=
  match fuel with
  | O => []
  | S fuel' =>
      match re_match r s with
      | Some (gs, rest) =>
          if (length rest <? length s)%nat then
            hd [] gs :: findall_from fuel' r rest
          else
            match s with
            | [] => [hd [] gs]
            | _ :: s' => hd [] gs :: findall_from fuel' r s'
            end
      | None =>
          match s with
          | [] => []
          | _ :: s' => findall_from fuel' r s'
          end
      end
  end.

Definition findall (r : regex) (s : str) : list str :=
  findall_from (S (length s)) r s.

(** ** STEP 2: the nutrient splitter *)

Definition comma : char := 44.
Definition lparen : char := 40.
Definition rparen : char := 41.
Definition newline : char := 10.

(** [re.compile(r'([^,]+\([^)]*\))')] *)
Definition NUTRIENT_ITEM_REGEX : regex :=
  Group (Seq (Plus (NotLit comma))
             (Seq (One (Lit lparen))
                  (Seq (Star (NotLit rparen)) (One (Lit rparen))))).

(** [re.compile(r'(.*?)\((.*?)\)')] *)
Definition NUTRIENT_NAME_AND_QTY_REGEX : regex :=
  Seq (Group (LazyStar Dot))
      (Seq (One (Lit lparen))
           (Seq (Group (LazyStar Dot)) (One (Lit rparen)))).

(** The body of the [for item in items] loop: the pair one item appends. *)
Definition nutrient_pair (item : str) : str * str :=
  let item := strip item in
  match re_match NUTRIENT_NAME_AND_QTY_REGEX item with
  | Some (gs, _) =>
      let name := strip (nth 0 gs []) in
      let qty := strip (nth 1 gs []) in
      (name, qty)
  | None => (item, [])
  end.

(** [results] starts empty and every item appends its pair. *)
Definition parse_nutrients (nutrient_text : str) : list (str * str) :=
  let items := findall NUTRIENT_ITEM_REGEX nutrient_text in
  fold_left (fun results item => results ++ [nutrient_pair item]) items [].

(** ** The parsed document

    What the markup parser hands back: tags with their contents, and strings.
    [NavigableString] stands for the string classes [get_text] collects
    (NavigableString, CData); [Comment] for those it leaves out (comments,
    doctypes, declarations, script and style text). Attributes are not
    modelled: the code never reads them. A tag object is named by the path of
    child indices that leads to it. *)

#[local] Set Warnings "-register-all".
Inductive node : Type :=
| Tag (name : str) (contents : list node)
| NavigableString (s : str)
| Comment (s : str).
#[local] Set Warnings "register-all".

Definition path := list nat.

Definition under (i : nat) (e : path * node) : path * node := (i :: fst e, snd e).

Section Contents.
Variable below : node -> list (path * node).

(** The nodes of a contents list whose first element has index [i]: each
    child, then what is below it, then its later siblings. *)
Fixpoint contents_from (i : nat) (cs : list node) : list (path * node) :=
  match cs with
  | [] => []
  | c :: cs' => ([i], c) :: map (under i) (below c) ++ contents_from (S i) cs'
  end.
End Contents.

(** [tag.descendants]: every node below [n], in document order. *)
Fixpoint descendants (n : node) : list (path * node) :=
  match n with
  | Tag _ cs => contents_from descendants 0%nat cs
  | _ => []
  end.

Definition is_tag (name : str) (n : node) : bool :=
  match n with
  | Tag nm _ => str_eqb nm name
  | _ => false
  end.

(** [tag.find_all(name)] *)
Definition find_all (n : node) (name : str) : list (path * node) :=
  filter (fun e => is_tag name (snd e)) (descendants n).

(** [tag.find(name)]: the first one, or [None]. *)
Definition find (n : node) (name : str) : option (path * node) :=
  hd_error (find_all n name).

(** The strings [get_text(strip=True)] joins: each one stripped, the empty
    ones dropped. *)
Definition stripped_string (n : node) : list str :=
  match n with
  | NavigableString s =>
      match strip s with
      | [] => []
      | t => [t]
      end
  | _ => []
  end.

(** [tag.get_text(strip=True)] *)
Definition get_text (n : node) : str :=
  concat (flat_map (fun e => stripped_string (snd e)) (descendants n)).

(** The text of a list of nodes, joined as [get_text] joins it. *)
Definition text_of_nodes (ns : list node) : str := concat (flat_map stripped_string ns).

(** The stripped strings below a node, in document order. *)
Definition strings_of (n : node) : list str :=
  flat_map stripped_string (map snd (descendants n)).

Fixpoint remove_nth {A : Type} (i : nat) (l : list A) : list A :=
  match l, i with
  | [], _ => []
  | _ :: l', O => l'
  | x :: l', S i' => x :: remove_nth i' l'
  end.

Fixpoint update_nth {A : Type} (i : nat) (f : A -> A) (l : list A) : list A :=
  match l, i with
  | [], _ => []
  | x :: l', O => f x :: l'
  | x :: l', S i' => x :: update_nth i' f l'
  end.

(** [n] after the element at path [p] below it has called [extract()]:
    the element is gone from its parent's contents. *)
Fixpoint extract (p : path) (n : node) : node :=
  match p, n with
  | [i], Tag nm cs => Tag nm (remove_nth i cs)
  | i :: p', Tag nm cs => Tag nm (update_nth i (extract p') cs)
  | _, _ => n
  end.

(** The document once the tag at path [p] has become [new]. *)
Fixpoint replace_at (p : path) (new : node) (n : node) : node :=
  match p, n with
  | [], _ => new
  | i :: p', Tag nm cs => Tag nm (update_nth i (replace_at p' new) cs)
  | _ :: _, _ => n
  end.

Fixpoint subtree_at (p : path) (n : node) : option node :=
  match p, n with
  | [], _ => Some n
  | i :: p', Tag _ cs =>
      match nth_error cs i with
      | Some c => subtree_at p' c
      | None => None
      end
  | _ :: _, _ => None
  end.

(** ** STEP 2: the field extractors *)

(** [str.lower]: Unicode lower-casing belongs to the language, not to this
    program, and stays a parameter. *)
Class StrLower := lower : str -> str.

Section Extractors.
Context {L : StrLower}.

(** The [for label in labels] loop for one paragraph [p] (found at [at_p])
    whose strong tag is at [at_strong] inside it: [Some] is the return
    statement, [None] the loop running out. The returned document is
    [soup] with the strong tag extracted. *)
Fixpoint extract_field_labels (soup : node) (at_p : path) (p : node)
         (at_strong : path) (strong_text : str) (labels : list str)
  : option (str * node) :=
  match labels with
  | [] => None
  | label :: labels' =>
      if str_in (lower label) strong_text then
        let p' := extract at_strong p in
        Some (get_text p', replace_at at_p p' soup)
      else extract_field_labels soup at_p p at_strong strong_text labels'
  end.

(** The [for p in soup.find_all("p")] loop. *)
Fixpoint extract_field_paragraphs (soup : node) (ps : list (path * node))
         (labels : list str) : str * node :=
  match ps with
  | [] => ([], soup)
  | (at_p, p) :: ps' =>
      match find p (py "strong") with
      | Some (at_strong, strong) =>
          let strong_text := lower (get_text strong) in
          match extract_field_labels soup at_p p at_strong strong_text labels with
          | Some result => result
          | None => extract_field_paragraphs soup ps' labels
          end
      | None => extract_field_paragraphs soup ps' labels
      end
  end.

(** [extract_field(soup, labels)]: the text returned, and [soup] as the
    call leaves it. *)
Definition extract_field (soup : node) (labels : list str) : str * node :=
  extract_field_paragraphs soup (find_all soup (py "p")) labels.

Definition known_markers : list str :=
  [py "živiny"; py "složení"; py "ingredience"; py "skladování";
   py "hmotnost"; py "původ"; py "allergen"].

Fixpoint extract_description_paragraphs (ps : list (path * node)) : str :=
  match ps with
  | [] => []
  | (_, p) :: ps' =>
      match find p (py "strong") with
      | Some (_, strong) =>
          let st_text := lower (get_text strong) in
          if existsb (fun marker => str_in marker st_text) known_markers
          then extract_description_paragraphs ps'
          else get_text p
      | None => get_text p
      end
  end.

(** [extract_description(soup)]; it leaves [soup] as it is. *)
Definition extract_description (soup : node) : str :=
  extract_description_paragraphs (find_all soup (py "p")).
End Extractors.

(** ** Objects

    Every [BeautifulSoup(...)] call builds a new document object. The heap
    holds the documents built so far; a call that is handed a document works
    on the object itself, so what it changes is there for whoever else holds
    the same reference. *)

(** [BeautifulSoup(markup, "html.parser")] parses with the library's
    parser, a collaborator of this program. *)
Class HtmlParser := html_parser : str -> node.

Definition heap := list node.
Definition ref := nat.

(** A computation on the heap, which returns or raises. *)
Definition M (A : Type) : Type := heap -> result (A * heap).

Definition ret {A : Type} (a : A) : M A := fun h => Ok (a, h).

Definition bind {A B : Type} (m : M A) (f : A -> M B) : M B :=
  fun h =>
    match m h with
    | Ok (a, h') => f a h'
    | Raise e => Raise e
    end.

Notation "x <- m ;; k" := (bind m (fun x => k))
  (at level 61, m at next level, right associativity).

(** The constructor takes the length of its markup before anything else,
    and [len(None)] is a [TypeError]. *)
Definition BeautifulSoup {P : HtmlParser} (markup : value) : M ref :=
  fun h =>
    match markup with
    | Some text => Ok (length h, h ++ [html_parser text])
    | None => Raise TypeError
    end.

(** A call that reads the document object [soup]. *)
Definition read_soup {A : Type} (f : node -> A) (soup : ref) : M A :=
  fun h =>
    match nth_error h soup with
    | Some doc => Ok (f doc, h)
    | None => Raise NoSuchObject
    end.

(** A call that may change the document object [soup]. *)
Definition call_on_soup {A : Type} (f : node -> A * node) (soup : ref) : M A :=
  fun h =>
    match nth_error h soup with
    | Some doc =>
        let (a, doc') := f doc in
        Ok (a, update_nth soup (fun _ => doc') h)
    | None => Raise NoSuchObject
    end.

(** ** STEP 3: the row builder *)

(** One CSV row: a dict with the ten keys of [CSV_COLUMNS]. *)
Record row : Type := {
  SKU : str;
  Title : value;
  Description : str;
  Allergen : str;
  Ingredients : str;
  Storage : str;
  Weight : str;
  Origin : str;
  Nutrient : str;
  Quantity : str
}.

(** [a or b] for [a] a string or [None] and [b] a string. *)
Definition py_or (a : value) (b : str) : str :=
  match a with
  | Some (c :: s) => c :: s
  | _ => b
  end.

Section RowLoop.
Variables (sku : str) (title : value).
Variables description allergen ingredients storage weight origin : str.

(** [for i, (nut_name, nut_qty) in enumerate(nutrient_pairs)] *)
Fixpoint build_rows_loop (i : nat) (nutrient_pairs : list (str * str))
         (rows : list row) : list row :=
  match nutrient_pairs with
  | [] => rows
  | (nut_name, nut_qty) :: rest =>
      let rows :=
        if (i =? 0)%nat then
          rows ++ [ {| SKU := sku; Title := title; Description := description;
                       Allergen := allergen; Ingredients := ingredients;
                       Storage := storage; Weight := weight; Origin := origin;
                       Nutrient := nut_name; Quantity := nut_qty |} ]
        else
          rows ++ [ {| SKU := []; Title := Some []; Description := [];
                       Allergen := []; Ingredients := [];
                       Storage := []; Weight := []; Origin := [];
                       Nutrient := nut_name; Quantity := nut_qty |} ]
      in
      build_rows_loop (S i) rest rows
  end.

Definition rows_of_pairs (nutrient_pairs : list (str * str)) : list row :=
  match nutrient_pairs with
  | [] =>
      [ {| SKU := sku; Title := title; Description := description;
           Allergen := allergen; Ingredients := ingredients;
           Storage := storage; Weight := weight; Origin := origin;
           Nutrient := []; Quantity := [] |} ]
  | _ => build_rows_loop 0 nutrient_pairs []
  end.
End RowLoop.

Section Builder.
Context {L : StrLower} {P : HtmlParser}.

Definition build_rows_for_product (sku : str) (title body_html : value)
  : M (list row) :=
  soup <- BeautifulSoup (Some (py_or body_html [])) ;;
  description <- read_soup extract_description soup ;;
  s1 <- BeautifulSoup body_html ;;
  allergen <- call_on_soup (fun s => extract_field s [py "Allergen"]) s1 ;;
  s2 <- BeautifulSoup body_html ;;
  ingredients <-
    call_on_soup (fun s => extract_field s [py "Složení"; py "Ingredience"]) s2 ;;
  s3 <- BeautifulSoup body_html ;;
  storage <- call_on_soup (fun s => extract_field s [py "Skladování"]) s3 ;;
  s4 <- BeautifulSoup body_html ;;
  weight <- call_on_soup (fun s => extract_field s [py "Hmotnost"]) s4 ;;
  s5 <- BeautifulSoup body_html ;;
  origin <- call_on_soup (fun s => extract_field s [py "Původ"]) s5 ;;
  s6 <- BeautifulSoup body_html ;;
  nutrient_block <- call_on_soup (fun s => extract_field s [py "Živiny"]) s6 ;;
  let nutrient_pairs := parse_nutrients nutrient_block in
  ret (rows_of_pairs sku title description allergen ingredients storage weight
         origin nutrient_pairs).
End Builder.

(** ** STEP 1: grouping the records by SKU *)

(** A Python dict with string keys: the items in insertion order, no key
    twice. *)
Definition dict (V : Type) : Type := list (str * V).

Fixpoint dict_get {V : Type} (d : dict V) (k : str) : option V :=
  match d with
  | [] => None
  | (k', v) :: d' => if str_eqb k' k then Some v else dict_get d' k
  end.

(** [d[k] = v]: a key already there keeps its place. *)
Fixpoint dict_set {V : Type} (d : dict V) (k : str) (v : V) : dict V :=
  match d with
  | [] => [(k, v)]
  | (k', v') :: d' =>
      if str_eqb k' k then (k, v) :: d' else (k', v') :: dict_set d' k v
  end.

(** [d.get(k, default)] *)
Definition dict_get_or {V : Type} (d : dict V) (k : str) (default : V) : V :=
  match dict_get d k with
  | Some v => v
  | None => default
  end.

(** [k in d] *)
Definition dict_mem {V : Type} (d : dict V) (k : str) : bool :=
  match dict_get d k with
  | Some _ => true
  | None => false
  end.

(** One entry of the JSON input: an object whose values are strings or
    null. *)
Definition record := dict value.

(** [key == name] *)
Definition key_is (key : value) (name : str) : bool :=
  match key with
  | Some k => str_eqb k name
  | None => false
  end.

(** The body of [for record in data]: [products] after the record. *)
Definition aggregate_record (products : dict (dict value)) (record : record)
  : result (dict (dict value)) :=
  let sku := dict_get_or record (py "sku") (Some []) in
  match sku with
  | Some (c :: s) =>
      (* a truthy [sku] *)
      let sku := c :: s in
      let products :=
        if negb (dict_mem products sku) then dict_set products sku [] else products in
      let key := dict_get_or record (py "key") None in
      let translation := dict_get_or record (py "translation") (Some []) in
      if key_is key (py "title") then
        match dict_get products sku with
        | Some info => Ok (dict_set products sku (dict_set info (py "title") translation))
        | None => Raise KeyError
        end
      else if key_is key (py "body_html") then
        match dict_get products sku with
        | Some info =>
            Ok (dict_set products sku (dict_set info (py "body_html") translation))
        | None => Raise KeyError
        end
      else Ok products
  | _ => Ok products  (* [if not sku: continue] *)
  end.

Fixpoint aggregate_from (products : dict (dict value)) (data : list record)
  : result (dict (dict value)) :=
  match data with
  | [] => Ok products
  | record :: data' =>
      match aggregate_record products record with
      | Ok products' => aggregate_from products' data'
      | Raise e => Raise e
      end
  end.

(** [products] after the loop over [data]. *)
Definition aggregate (data : list record) : result (dict (dict value)) :=
  aggregate_from [] data.

(** ** STEP 4: the rows of every product *)

Section Pipeline.
Context {L : StrLower} {P : HtmlParser}.

(** [for sku, info in products.items()] *)
Fixpoint all_csv_rows_loop (items : dict (dict value)) (all_csv_rows : list row)
  : M (list row) :=
  match items with
  | [] => ret all_csv_rows
  | (sku, info) :: items' =>
      let title := dict_get_or info (py "title") (Some []) in
      let body_html := dict_get_or info (py "body_html") (Some []) in
      product_rows <- build_rows_for_product sku title body_html ;;
      all_csv_rows_loop items' (all_csv_rows ++ product_rows)
  end.

(** The rows the script writes for the input [data], starting from an
    empty heap. *)
Definition csv_rows (data : list record) : result (list row) :=
  match aggregate data with
  | Ok products =>
      match all_csv_rows_loop products [] [] with
      | Ok (rows, _) => Ok rows
      | Raise e => Raise e
      end
  | Raise e => Raise e
  end.
End Pipeline.

(** ** The specification's view

    The definitions below restate, in the specification's words, what the
    code above is compared with. *)

(** The text before the first [c] and the text after it, when no line feed
    comes before that [c]. *)
Fixpoint take_line_until (c : char) (s : str) : option (str * str) :=
  match s with
  | [] => None
  | x :: s' =>
      if x =? c then Some ([], s')
      else if x =? newline then None
      else
        match take_line_until c s' with
        | Some (pre, rest) => Some (x :: pre, rest)
        | None => None
        end
  end.

(** [<name>(<qty>)]: the name is the text before the first opening
    parenthesis, the quantity the text from there to the next closing one. *)
Definition name_and_qty (item : str) : option (list str * str) :=
  match take_line_until lparen item with
  | Some (name, after) =>
      match take_line_until rparen after with
      | Some (qty, rest) => Some ([name; qty], rest)
      | None => None
      end
  | None => None
  end.

(** The text after the first [c], if there is one. *)
Fixpoint after_first (c : char) (s : str) : option str :=
  match s with
  | [] => None
  | x :: s' => if x =? c then Some s' else after_first c s'
  end.

Definition has_char (c : char) (s : str) : bool := existsb (N.eqb c) s.

(** A nutrient written [name(qty)]: the name is not empty and holds no
    comma or opening parenthesis, and no line feed after its leading
    whitespace; the quantity holds no closing parenthesis or line feed. *)
Definition well_formed (it : str * str) : bool :=
  negb (str_eqb (fst it) [])
  && negb (has_char comma (fst it)) && negb (has_char lparen (fst it))
  && negb (has_char newline (lstrip (fst it)))
  && negb (has_char rparen (snd it)) && negb (has_char newline (snd it)).

Definition item_text (it : str * str) : str :=
  fst it ++ lparen :: snd it ++ [rparen].

(** [",".join(items)] *)
Fixpoint join_comma (items : list str) : str :=
  match items with
  | [] => []
  | [x] => x
  | x :: rest => x ++ comma :: join_comma rest
  end.

(** The text after an item: nothing, or a comma and more. *)
Definition item_boundary (tail : str) : Prop :=
  tail = [] \/ exists t, tail = comma :: t.

(** What is left of [NUTRIENT_NAME_AND_QTY_REGEX] once the first group is
    being matched, with [s0] the text the match started on. *)
Definition after_name (s0 s' : str) : option (list str * str) :=
  one_char (Lit lparen) s'
    (fun s'' =>
       star_lazy Dot s''
         (fun s3 =>
            one_char (Lit rparen) s3
              (fun s4 =>
                 Some ([firstn (length s0 - length s') s0;
                        firstn (length s'' - length s3) s''], s4)))).

(** What is left of [NUTRIENT_ITEM_REGEX] after the run of non-comma
    characters, with [s0] the text the match started on. *)
Definition after_run (s0 s' : str) : option (list str * str) :=
  one_char (Lit lparen) s'
    (fun s'' =>
       star_greedy (NotLit rparen) s''
         (fun s3 =>
            one_char (Lit rparen) s3
              (fun s4 => Some ([firstn (length s0 - length s4) s0], s4)))).

Definition parenthesized (item : str) : Prop :=
  exists a b, item = a ++ lparen :: b ++ [rparen]
              /\ a <> [] /\ has_char comma a = false /\ has_char rparen b = false.

Definition trimmed (it : str * str) : str * str := (strip (fst it), strip (snd it)).

(** A comma-separated segment of a nutrient block: a nutrient written
    [name(qty)], or a fragment with no opening parenthesis in it. *)
Inductive segment : Type :=
| Item (it : str * str)
| Fragment (text : str).

Definition segment_text (seg : segment) : str :=
  match seg with
  | Item it => item_text it
  | Fragment text => text
  end.

Definition segment_ok (seg : segment) : bool :=
  match seg with
  | Item it => well_formed it
  | Fragment text => negb (has_char lparen text)
  end.

(** What a segment leaves in the output. *)
Definition segment_pairs (seg : segment) : list (str * str) :=
  match seg with
  | Item it => [trimmed it]
  | Fragment _ => []
  end.

Definition segment_items (seg : segment) : list str :=
  match seg with
  | Item it => [item_text it]
  | Fragment _ => []
  end.






Section BlockView.
Context {L : StrLower}.

(** The paragraph-like blocks of a document, in document order. *)
Definition blocks (doc : node) : list node := map snd (find_all doc (py "p")).

(** A block's emphasized lead-in: its first strong tag. *)
Definition lead_in (block : node) : option node :=
  option_map snd (find block (py "strong")).

(** Case-folded, trimmed text of a lead-in. *)
Definition normalized (lead : node) : str := lower (get_text lead).

Definition has_label (labels : list str) (block : node) : bool :=
  match lead_in block with
  | Some lead => existsb (fun label => str_in (lower label) (normalized lead)) labels
  | None => false
  end.

Definition has_marker (block : node) : bool :=
  match lead_in block with
  | Some lead => existsb (fun marker => str_in marker (normalized lead)) known_markers
  | None => false
  end.

(** The block once its lead-in has been taken out. *)
Definition without_lead_in (block : node) : node :=
  match find block (py "strong") with
  | Some (at_strong, _) => extract at_strong block
  | None => block
  end.





(** One field of a product: what [extract_field] returns on a document
    parsed from [markup] for this call alone. *)
Definition field_of {P : HtmlParser} (markup : str) (labels : list str) : str :=
  fst (extract_field (html_parser markup) labels).

Definition document_after {P : HtmlParser} (markup : str) (labels : list str) : node :=
  snd (extract_field (html_parser markup) labels).

(** The rows of a product, from its fields taken one by one. *)
Definition rows_of_product {P : HtmlParser} (sku : str) (title : value)
           (body_html : str) : list row :=
  rows_of_pairs sku title
    (extract_description (html_parser body_html))
    (field_of body_html [py "Allergen"])
    (field_of body_html [py "Složení"; py "Ingredience"])
    (field_of body_html [py "Skladování"])
    (field_of body_html [py "Hmotnost"])
    (field_of body_html [py "Původ"])
    (parse_nutrients (field_of body_html [py "Živiny"])).

(** The documents one call of the builder leaves on the heap. *)
Definition documents_built {P : HtmlParser} (body_html : str) : list node :=
  [ html_parser body_html;
    document_after body_html [py "Allergen"];
    document_after body_html [py "Složení"; py "Ingredience"];
    document_after body_html [py "Skladování"];
    document_after body_html [py "Hmotnost"];
    document_after body_html [py "Původ"];
    document_after body_html [py "Živiny"] ].

(** The rows of one entry of [products] whose markup is a string. *)
Definition rows_of_item {P : HtmlParser} (e : str * dict value) : list row :=
  rows_of_product (fst e)
    (dict_get_or (snd e) (py "title") (Some []))
    (py_or (dict_get_or (snd e) (py "body_html") (Some [])) []).
End BlockView.

(** A document with nothing in it. *)
Definition empty_document (doc : node) : Prop := descendants doc = [].

(** A record that carries identifier [I]. *)
Definition mentions (I : str) (r : record) : bool :=
  match dict_get_or r (py "sku") (Some []) with
  | Some sku => str_eqb sku I
  | None => false
  end.

(** A record for identifier [I] and field [field]. *)
Definition writes (I field : str) (r : record) : bool :=
  mentions I r && key_is (dict_get_or r (py "key") None) field.

(** The last record of [data] for identifier [I] and field [field], if any:
    its translation. *)
Definition last_write (I field : str) (data : list record) : option value :=
  match rev (filter (writes I field) data) with
  | r :: _ => Some (dict_get_or r (py "translation") (Some []))
  | [] => None
  end.

(** An entry of [products] whose markup, if it has any, is a string. *)
Definition markup_is_string (e : str * dict value) : Prop :=
  dict_get_or (snd e) (py "body_html") (Some []) <> None.

(** Every translation of [data] is a string. *)
Definition translations_are_strings (data : list record) : Prop :=
  forall r, In r data -> dict_get_or r (py "translation") (Some []) <> None.

Definition is_field (g : str) : Prop := g = py "title" \/ g = py "body_html".

(** What holds of [products] once the records [seen] have been read: no
    identifier twice; an identifier is there exactly when it is not empty and
    some record carried it; and each field of a draft is the last one
    written. *)
Definition consistent (seen : list record) (products : dict (dict value)) : Prop :=
  NoDup (map fst products)
  /\ (forall I, dict_mem products I = negb (str_eqb I []) && existsb (mentions I) seen)
  /\ (forall I info g, dict_get products I = Some info -> is_field g ->
                       dict_get info g = last_write I g seen).

(** A row that carries a nutrient and nothing else. *)
Definition nutrient_row (pair : str * str) : row :=
  {| SKU := []; Title := Some []; Description := []; Allergen := [];
     Ingredients := []; Storage := []; Weight := []; Origin := [];
     Nutrient := fst pair; Quantity := snd pair |}.

(** The eight product-level columns of a row. *)
Definition product_columns (r : row) : list value :=
  [Some (SKU r); Title r; Some (Description r); Some (Allergen r);
   Some (Ingredients r); Some (Storage r); Some (Weight r); Some (Origin r)].

(** A row with its SKU and title and nothing else. *)
Definition blank_row (sku : str) (title : value) : row :=
  {| SKU := sku; Title := title; Description := []; Allergen := [];
     Ingredients := []; Storage := []; Weight := []; Origin := [];
     Nutrient := []; Quantity := [] |}.

(** ** Instances used in the examples *)

(** [str.lower] on ASCII, Latin-1 and the case pairs of Latin Extended-A,
    the Czech alphabet among them; other code points are left alone here. *)
Definition czech_lower_char (c : char) : char :=
  if (65 <=? c) && (c <=? 90) then c + 32
  else if (192 <=? c) && (c <=? 222) && negb (c =? 215) then c + 32
  else if (256 <=? c) && (c <=? 303) && N.even c then c + 1
  else if (313 <=? c) && (c <=? 328) && N.odd c then c + 1
  else if (330 <=? c) && (c <=? 375) && N.even c then c + 1
  else if (377 <=? c) && (c <=? 382) && N.odd c then c + 1
  else c.

Definition czech_lower : StrLower := map czech_lower_char.

(** What the parser builds from markup that holds plain text only (no tag,
    entity or comment): a document with that one string, or with nothing. *)
Definition plain_text_parser : HtmlParser :=
  fun markup =>
    Tag (py "[document]")
        match markup with
        | [] => []
        | _ => [NavigableString markup]
        end.

(** ** Sample inputs *)

(** A description, an ingredients block with an upper-case lead-in, a block
    whose second strong tag names a label, and a nutrient block. *)
Definition sample_document : node :=
  Tag (py "[document]")
    [ Tag (py "p") [NavigableString (py " Popis produktu ")];
      Tag (py "p") [Tag (py "strong") [NavigableString (py "SLOŽENÍ:")];
                    NavigableString (py " mouka, voda ")];
      Tag (py "p") [Tag (py "strong") [NavigableString (py "Pozn.")];
                    NavigableString (py " bez ");
                    Tag (py "strong") [NavigableString (py "Allergen")];
                    NavigableString (py " lepek ")];
      Tag (py "p") [Tag (py "strong") [NavigableString (py "Živiny:")];
                    NavigableString (py " Tuky(1g), Cukr(2g)")] ].

(** The block of [sample_document] with two strong tags. *)
Definition two_span_block : node :=
  Tag (py "p") [Tag (py "strong") [NavigableString (py "Pozn.")];
                NavigableString (py " bez ");
                Tag (py "strong") [NavigableString (py "Allergen")];
                NavigableString (py " lepek ")].


(** A block whose first strong tag is no marker and whose second one is. *)
Definition late_marker_block : node :=
  Tag (py "p") [Tag (py "strong") [NavigableString (py "Pozn.")];
                NavigableString (py " bez ");
                Tag (py "strong") [NavigableString (py "Složení")];
                NavigableString (py " lepek ")].




(** The markup [sample_document] is parsed from, and a parser that knows
    it. *)
Definition sample_markup : str :=
  py "<p> Popis produktu </p><p><strong>SLOŽENÍ:</strong> mouka, voda </p><p><strong>Pozn.</strong> bez <strong>Allergen</strong> lepek </p><p><strong>Živiny:</strong> Tuky(1g), Cukr(2g)</p>".

Definition sample_parser : HtmlParser :=
  fun markup =>
    if str_eqb markup sample_markup then sample_document else plain_text_parser markup.

Definition sample_data : list record :=
  [ [(py "sku", Some (py "A")); (py "key", Some (py "title"));
     (py "translation", Some (py "Chléb"))];
    [(py "sku", Some (py "A")); (py "key", Some (py "body_html"));
     (py "translation", Some sample_markup)] ].

(** A nutrient whose name is wrapped over two lines. *)
Definition wrapped_name_item : str :=
  py "Celkové" ++ newline :: py "Tuky(99.7g)".

Definition json_record (sku key translation : string) : record :=
  [(py "sku", Some (py sku)); (py "key", Some (py key));
   (py "translation", Some (py translation))].

(** A body record whose translation is null. *)
Definition null_markup_data : list record :=
  [ json_record "A" "title" "T";
    [(py "sku", Some (py "A")); (py "key", Some (py "body_html"));
     (py "translation", None)] ].

(** An identifier whose only record has the field key "price". *)
Definition price_only_data : list record := [json_record "A" "price" "9"].

Definition overwritten_title_data : list record :=
  [ json_record "A" "title" "T1"; json_record "B" "body_html" "b";
    json_record "A" "price" "9"; json_record "A" "title" "T2" ].

(** A field of a draft, if the draft is there and has it. *)
Definition draft_field (products : dict (dict value)) (I g : str) : option value :=
  match dict_get products I with
  | Some info => dict_get info g
  | None => None
  end.

(** The identifier a record carries: its [sku], or the empty string when
    it has none, a null one or an empty one. *)
Definition sku_of (r : record) : str := py_or (dict_get_or r (py "sku") (Some [])) [].

(** The identifiers of [skus] that are not empty and not among [seen], each
    once, in the order in which they first appear. *)
Fixpoint first_seen (seen skus : list str) : list str :=
  match skus with
  | [] => []
  | sku :: rest =>
      if str_eqb sku [] || existsb (fun k => str_eqb k sku) seen
      then first_seen seen rest
      else sku :: first_seen (seen ++ [sku]) rest
  end.

(** Field [field] of identifier [I] as STEP 4 reads it: the translation of
    the last record that wrote it, or the empty string when no record
    did. *)
Definition last_value (I field : str) (data : list record) : value :=
  match last_write I field data with
  | Some translation => translation
  | None => Some []
  end.

(** A draft that holds nothing but a title and a markup, each at most
    once. *)
Definition draft_keys_ok (info : dict value) : Prop :=
  NoDup (map fst info) /\ forall g, In g (map fst info) -> is_field g.

(** An entry of [products] whose markup is [None]. *)
Definition markup_is_null (e : str * dict value) : Prop :=
  dict_get_or (snd e) (py "body_html") (Some []) = None.

(** A row that opens a product: its SKU cell is not empty. *)
Definition has_sku (r : row) : bool := negb (str_eqb (SKU r) []).

(** Somewhere in the text an opening parenthesis follows a character that
    is no comma, and a closing parenthesis comes after it. *)
Fixpoint has_item (s : str) : bool :=
  match s with
  | x :: s' =>
      match s' with
      | y :: rest =>
          (negb (x =? comma) && (y =? lparen) && has_char rparen rest) || has_item s'
      | [] => false
      end
  | [] => false
  end.

(** The labels [build_rows_for_product] asks [extract_field] for. *)
Definition builder_labels : list str :=
  [py "Allergen"; py "Složení"; py "Ingredience"; py "Skladování";
   py "Hmotnost"; py "Původ"; py "Živiny"].

(** * Proofs *)

(** ** Strings *)

(** The code points behind the literals with letters outside ASCII. *)
Example literal_code_points :
  py "Živiny" = [381; 105; 118; 105; 110; 121]
  /\ py "Složení" = [83; 108; 111; 382; 101; 110; 237]
  /\ py "Skladování" = [83; 107; 108; 97; 100; 111; 118; 225; 110; 237]
  /\ py "Původ" = [80; 367; 118; 111; 100]
  /\ py "Celkové Tuky" = [67; 101; 108; 107; 111; 118; 233; 32; 84; 117; 107; 121]
  /\ py "Bílkoviny" = [66; 237; 108; 107; 111; 118; 105; 110; 121].
Proof. repeat split. Qed.

Example czech_lower_labels :
  @lower czech_lower (py "SLOŽENÍ:") = py "složení:"
  /\ map (@lower czech_lower)
         [py "Allergen"; py "Složení"; py "Ingredience"; py "Skladování";
          py "Hmotnost"; py "Původ"; py "Živiny"]
     = [py "allergen"; py "složení"; py "ingredience"; py "skladování";
        py "hmotnost"; py "původ"; py "živiny"].
Proof. split; reflexivity. Qed.

Lemma str_eqb_eq (a b : str) : str_eqb a b = true <-> a = b.
Proof.
  unfold str_eqb. destruct (list_eq_dec N.eq_dec a b); split; congruence.
Qed.

Lemma str_eqb_refl (a : str) : str_eqb a a = true.
Proof. now apply str_eqb_eq. Qed.

Lemma str_eqb_neq (a b : str) : str_eqb a b = false <-> a <> b.
Proof.
  unfold str_eqb. destruct (list_eq_dec N.eq_dec a b); split; congruence.
Qed.

Lemma has_char_cons (c x : char) (s : str) :
  has_char c (x :: s) = false <-> x <> c /\ has_char c s = false.
Proof.
  unfold has_char. simpl. rewrite orb_false_iff, N.eqb_neq. intuition congruence.
Qed.

Lemma has_char_app (c : char) (a b : str) :
  has_char c (a ++ b) = has_char c a || has_char c b.
Proof. unfold has_char. apply existsb_app. Qed.

Lemma lstrip_app_nonspace (n r : str) (x : char) :
  isspace x = false -> lstrip (n ++ x :: r) = lstrip n ++ x :: r.
Proof.
  intros Hx. induction n as [|c n IH]; simpl.
  - now rewrite Hx.
  - destruct (isspace c); [exact IH | reflexivity].
Qed.

Lemma lstrip_idempotent (s : str) : lstrip (lstrip s) = lstrip s.
Proof.
  induction s as [|c s IH]; simpl; [reflexivity|].
  destruct (isspace c) eqn:E; [exact IH | simpl; now rewrite E].
Qed.

Lemma lstrip_keeps_absent (c : char) (s : str) :
  has_char c s = false -> has_char c (lstrip s) = false.
Proof.
  induction s as [|x s IH]; simpl; intros H; [reflexivity|].
  destruct (isspace x); [|exact H].
  apply IH. now apply has_char_cons in H.
Qed.

Lemma rstrip_snoc_nonspace (m : str) (x : char) :
  isspace x = false -> rstrip (m ++ [x]) = m ++ [x].
Proof.
  intros Hx. unfold rstrip. rewrite rev_app_distr. simpl. rewrite Hx.
  simpl. now rewrite rev_involutive.
Qed.

Lemma strip_item_text (n q : str) :
  strip (n ++ lparen :: q ++ [rparen]) = lstrip n ++ lparen :: q ++ [rparen].
Proof.
  unfold strip. rewrite lstrip_app_nonspace by reflexivity.
  change (lstrip n ++ lparen :: q ++ [rparen])
    with (lstrip n ++ (lparen :: q) ++ [rparen]).
  rewrite app_assoc. now apply rstrip_snoc_nonspace.
Qed.

Lemma strip_lstrip (s : str) : strip (lstrip s) = strip s.
Proof. unfold strip. now rewrite lstrip_idempotent. Qed.

Lemma firstn_prefix (a r : str) :
  firstn (length (a ++ r) - length r) (a ++ r) = a.
Proof.
  rewrite length_app, Nat.add_sub.
  rewrite firstn_app, Nat.sub_diag, firstn_all. simpl. apply app_nil_r.
Qed.

Lemma fold_left_append_map {A B : Type} (f : A -> B) (l : list A) (acc : list B) :
  fold_left (fun results x => results ++ [f x]) l acc = acc ++ map f l.
Proof.
  revert acc. induction l as [|x l IH]; intros acc; simpl.
  - now rewrite app_nil_r.
  - rewrite IH, <- app_assoc. reflexivity.
Qed.

(** ** The patterns *)

Lemma take_line_until_split (c : char) (s pre rest : str) :
  take_line_until c s = Some (pre, rest) ->
  s = pre ++ c :: rest /\ has_char c pre = false /\ has_char newline pre = false.
Proof.
  revert pre rest. induction s as [|x s IH]; simpl; intros pre rest H; [discriminate|].
  destruct (x =? c) eqn:Exc.
  - apply N.eqb_eq in Exc. inversion H; subst. auto.
  - destruct (x =? newline) eqn:Exn; [discriminate|].
    destruct (take_line_until c s) as [[p r]|] eqn:E; [|discriminate].
    inversion H; subst. destruct (IH p rest eq_refl) as (-> & Hc & Hn).
    apply N.eqb_neq in Exc, Exn.
    repeat split; [apply has_char_cons | apply has_char_cons]; auto.
Qed.

Lemma take_line_until_app (c : char) (a r : str) :
  has_char c a = false -> has_char newline a = false ->
  take_line_until c (a ++ c :: r) = Some (a, r).
Proof.
  induction a as [|x a IH]; intros Hc Hn; cbn [take_line_until app].
  - now rewrite N.eqb_refl.
  - apply has_char_cons in Hc, Hn. destruct Hc as [Hxc Hc], Hn as [Hxn Hn].
    apply N.eqb_neq in Hxc, Hxn. rewrite Hxc, Hxn, (IH Hc Hn). reflexivity.
Qed.

Section NameAndQty.
Variable s0 : str.
Abbreviation name_rest := (after_name s0).

Lemma lazy_qty (g : str) (s : str) :
  star_lazy Dot s
    (fun s3 =>
       one_char (Lit rparen) s3
         (fun s4 => Some ([g; firstn (length s - length s3) s], s4)))
  = match take_line_until rparen s with
    | Some (qty, rest) => Some ([g; qty], rest)
    | None => None
    end.
Proof.
  assert (G : forall pre s,
    star_lazy Dot s
      (fun s3 =>
         one_char (Lit rparen) s3
           (fun s4 => Some ([g; firstn (length (pre ++ s) - length s3) (pre ++ s)], s4)))
    = match take_line_until rparen s with
      | Some (qty, rest) => Some ([g; pre ++ qty], rest)
      | None => None
      end).
  { intros pre t. revert pre. induction t as [|x t IH]; intros pre; [reflexivity|].
    simpl. destruct (x =? rparen) eqn:Ex.
    - apply N.eqb_eq in Ex. subst x.
      change (pre ++ rparen :: t) with (pre ++ (rparen :: t)).
      rewrite firstn_prefix, app_nil_r. reflexivity.
    - change (x =? 10) with (x =? newline).
      destruct (x =? newline); simpl; [reflexivity|].
      specialize (IH (pre ++ [x])). rewrite <- app_assoc in IH. simpl in IH.
      rewrite IH. destruct (take_line_until rparen t) as [[q r]|]; [|reflexivity].
      now rewrite <- app_assoc. }
  exact (G [] s).
Qed.

Lemma after_name_eq (s' : str) :
  name_rest s'
  = match s' with
    | x :: s'' =>
        if x =? lparen then
          match take_line_until rparen s'' with
          | Some (qty, rest) =>
              Some ([firstn (length s0 - length s') s0; qty], rest)
          | None => None
          end
        else None
    | [] => None
    end.
Proof.
  unfold after_name. destruct s' as [|x s'']; [reflexivity|].
  unfold one_char at 1. unfold charset_matches.
  destruct (x =? lparen); [|reflexivity].
  apply lazy_qty.
Qed.

(** Once an opening parenthesis has no closing one on its line, no later
    position of that line can start the rest of the pattern. *)
Lemma lazy_name_doomed (s : str) :
  take_line_until rparen s = None -> star_lazy Dot s name_rest = None.
Proof.
  induction s as [|x s IH]; intros H.
  - reflexivity.
  - cbn [take_line_until] in H. destruct (x =? rparen) eqn:Exr; [discriminate|].
    cbn [star_lazy charset_matches]. rewrite after_name_eq.
    change (x =? 10) with (x =? newline).
    destruct (x =? newline) eqn:Exn.
    + apply N.eqb_eq in Exn. subst x. reflexivity.
    + destruct (take_line_until rparen s) eqn:E; [destruct p; discriminate|].
      cbn [negb]. rewrite (IH eq_refl). now destruct (x =? lparen).
Qed.

Lemma lazy_name (pre s : str) :
  s0 = pre ++ s ->
  star_lazy Dot s name_rest
  = match take_line_until lparen s with
    | Some (name, after) =>
        match take_line_until rparen after with
        | Some (qty, rest) => Some ([pre ++ name; qty], rest)
        | None => None
        end
    | None => None
    end.
Proof.
  revert pre. induction s as [|x s IH]; intros pre Hs0.
  - reflexivity.
  - cbn [star_lazy charset_matches take_line_until]. rewrite after_name_eq.
    destruct (x =? lparen) eqn:Exl.
    + apply N.eqb_eq in Exl. subst x.
      destruct (take_line_until rparen s) as [[q r]|] eqn:E.
      * rewrite Hs0. change (pre ++ lparen :: s) with (pre ++ (lparen :: s)).
        rewrite firstn_prefix, app_nil_r. reflexivity.
      * cbn. now apply lazy_name_doomed.
    + change (x =? 10) with (x =? newline).
      destruct (x =? newline); cbn [negb]; [reflexivity|].
      rewrite (IH (pre ++ [x])) by (rewrite <- app_assoc; exact Hs0).
      destruct (take_line_until lparen s) as [[n a]|]; [|reflexivity].
      destruct (take_line_until rparen a) as [[q r]|]; [|reflexivity].
      now rewrite <- app_assoc.
Qed.
End NameAndQty.

Example item_pattern_backs_off :
  findall NUTRIENT_ITEM_REGEX (py "a(b)c(d") = [py "a(b)"].
Proof. reflexivity. Qed.

Example quantity_spans_commas :
  parse_nutrients (py "a(1,2(3),(4),x(5)y") = [(py "a", py "1,2(3"); (py "x", py "5")].
Proof. reflexivity. Qed.

(** The name-and-quantity pattern does what the specification says of it,
    on every string. *)
Lemma re_match_name_and_qty (item : str) :
  re_match NUTRIENT_NAME_AND_QTY_REGEX item = name_and_qty item.
Proof.
  unfold re_match, NUTRIENT_NAME_AND_QTY_REGEX, name_and_qty. cbn [exec app].
  exact (lazy_name item [] item eq_refl).
Qed.

(** A greedy run of characters other than [c], then [c] itself, comes to:
    go on after the first [c]. *)
Lemma greedy_until {R : Type} (c : char) (s : str) (k : str -> option R) :
  star_greedy (NotLit c) s (fun s3 => one_char (Lit c) s3 k)
  = match after_first c s with
    | Some rest => k rest
    | None => None
    end.
Proof.
  induction s as [|x s IH]; [reflexivity|].
  cbn [star_greedy after_first one_char charset_matches].
  destruct (x =? c); cbn [negb]; [reflexivity|].
  rewrite IH. now destruct (after_first c s) as [rest|]; [destruct (k rest)|].
Qed.

Lemma after_first_app (c : char) (a r : str) :
  has_char c a = false -> after_first c (a ++ c :: r) = Some r.
Proof.
  induction a as [|x a IH]; intros H; cbn [after_first app].
  - now rewrite N.eqb_refl.
  - apply has_char_cons in H. destruct H as [Hx H].
    apply N.eqb_neq in Hx. rewrite Hx. now apply IH.
Qed.

Section Item.
Variable s0 : str.
Abbreviation run_rest := (after_run s0).

Lemma after_run_eq (s' : str) :
  run_rest s'
  = match s' with
    | x :: s'' =>
        if x =? lparen then
          match after_first rparen s'' with
          | Some rest => Some ([firstn (length s0 - length rest) s0], rest)
          | None => None
          end
        else None
    | [] => None
    end.
Proof.
  unfold after_run. destruct s' as [|x s'']; [reflexivity|].
  cbn [one_char charset_matches]. destruct (x =? lparen); [|reflexivity].
  apply greedy_until.
Qed.

Lemma after_run_boundary (tail : str) : item_boundary tail -> run_rest tail = None.
Proof. intros [->|[t ->]]; reflexivity. Qed.

(** Inside the parentheses every way of backing off ends the match at the
    same closing parenthesis. *)
Lemma greedy_run_in_qty (q tail : str) (r : list str * str) :
  has_char rparen q = false -> item_boundary tail ->
  star_greedy (NotLit comma) (q ++ rparen :: tail) run_rest = Some r ->
  r = ([firstn (length s0 - length tail) s0], tail).
Proof.
  intros Hq Htail. induction q as [|x q IH]; cbn [app star_greedy charset_matches].
  - change (negb (rparen =? comma)) with true. cbv iota.
    assert (Hrun : star_greedy (NotLit comma) tail run_rest = None).
    { destruct Htail as [->|[t ->]]; reflexivity. }
    rewrite Hrun, after_run_eq. discriminate.
  - apply has_char_cons in Hq. destruct Hq as [Hx Hq].
    destruct (x =? comma); cbn [negb].
    + rewrite after_run_eq.
      destruct (x =? lparen); [|discriminate].
      rewrite (after_first_app _ _ _ Hq). congruence.
    + rewrite after_run_eq.
      destruct (star_greedy (NotLit comma) (q ++ rparen :: tail) run_rest) eqn:E.
      * intros H. inversion H; subst. now apply IH.
      * destruct (x =? lparen); [|discriminate].
        rewrite (after_first_app _ _ _ Hq). congruence.
Qed.

Lemma greedy_run_item (n q tail : str) :
  has_char comma n = false -> has_char rparen q = false -> item_boundary tail ->
  star_greedy (NotLit comma) (n ++ lparen :: q ++ rparen :: tail) run_rest
  = Some ([firstn (length s0 - length tail) s0], tail).
Proof.
  intros Hn Hq Htail. induction n as [|x n IH]; cbn [app star_greedy charset_matches].
  - change (negb (lparen =? comma)) with true. cbv iota.
    destruct (star_greedy (NotLit comma) (q ++ rparen :: tail) run_rest) eqn:E.
    + f_equal. now apply (greedy_run_in_qty q tail).
    + rewrite after_run_eq. change (lparen =? lparen) with true. cbv iota.
      now rewrite (after_first_app _ _ _ Hq).
  - apply has_char_cons in Hn. destruct Hn as [Hx Hn].
    apply N.eqb_neq in Hx. rewrite Hx. cbn [negb]. now rewrite (IH Hn).
Qed.

Lemma greedy_run_fragment (frag tail : str) :
  has_char lparen frag = false -> item_boundary tail ->
  star_greedy (NotLit comma) (frag ++ tail) run_rest = None.
Proof.
  intros Hf Htail. induction frag as [|x f IH]; cbn [app].
  - destruct Htail as [->|[t ->]]; reflexivity.
  - apply has_char_cons in Hf. destruct Hf as [Hx Hf].
    cbn [star_greedy]. rewrite (IH Hf), after_run_eq.
    apply N.eqb_neq in Hx. rewrite Hx. now destruct (charset_matches _ x).
Qed.
End Item.

Lemma re_match_item_unfold (s : str) :
  re_match NUTRIENT_ITEM_REGEX s
  = one_char (NotLit comma) s (fun s1 => star_greedy (NotLit comma) s1 (after_run s)).
Proof. reflexivity. Qed.

(** A well-formed item at the head of the text is matched whole. *)
Lemma re_match_item (n q tail : str) :
  n <> [] -> has_char comma n = false -> has_char lparen n = false ->
  has_char rparen q = false -> item_boundary tail ->
  re_match NUTRIENT_ITEM_REGEX (n ++ lparen :: q ++ rparen :: tail)
  = Some ([n ++ lparen :: q ++ [rparen]], tail).
Proof.
  intros Hne Hn _ Hq Htail. rewrite re_match_item_unfold.
  destruct n as [|x n]; [congruence|].
  apply has_char_cons in Hn. destruct Hn as [Hx Hn].
  cbn [app one_char charset_matches]. apply N.eqb_neq in Hx. rewrite Hx. cbn [negb].
  rewrite (greedy_run_item _ n q tail Hn Hq Htail). repeat f_equal.
  replace (x :: n ++ lparen :: q ++ rparen :: tail)
    with ((x :: n ++ lparen :: q ++ [rparen]) ++ tail).
  - apply firstn_prefix.
  - cbn [app]. rewrite <- !app_assoc. cbn [app]. rewrite <- app_assoc. reflexivity.
Qed.

(** No item starts inside a fragment that has no opening parenthesis. *)
Lemma re_match_fragment (frag tail : str) :
  has_char lparen frag = false -> item_boundary tail ->
  re_match NUTRIENT_ITEM_REGEX (frag ++ tail) = None.
Proof.
  intros Hf Htail. rewrite re_match_item_unfold.
  destruct frag as [|x f]; cbn [app].
  - destruct Htail as [->|[t ->]]; reflexivity.
  - apply has_char_cons in Hf. destruct Hf as [_ Hf]. cbn [one_char].
    destruct (charset_matches _ x); [|reflexivity].
    now apply greedy_run_fragment.
Qed.

(** ** Scanning *)

Lemma findall_from_enough (r : regex) (f1 f2 : nat) (s : str) :
  (length s < f1)%nat -> (length s < f2)%nat ->
  findall_from f1 r s = findall_from f2 r s.
Proof.
  revert f2 s. induction f1 as [|f1 IH]; intros f2 s H1 H2; [lia|].
  destruct f2 as [|f2]; [lia|]. cbn [findall_from].
  destruct (re_match r s) as [[gs rest]|].
  - destruct (length rest <? length s)%nat eqn:E.
    + apply Nat.ltb_lt in E. f_equal. apply IH; lia.
    + destruct s as [|x s]; [reflexivity|]. f_equal. cbn [length] in *. apply IH; lia.
  - destruct s as [|x s]; [reflexivity|]. cbn [length] in *. apply IH; lia.
Qed.

Lemma findall_from_step (fuel : nat) (r : regex) (s : str) :
  findall_from (S fuel) r s
  = match re_match r s with
    | Some (gs, rest) =>
        if (length rest <? length s)%nat then hd [] gs :: findall_from fuel r rest
        else
          match s with
          | [] => [hd [] gs]
          | _ :: s' => hd [] gs :: findall_from fuel r s'
          end
    | None =>
        match s with
        | [] => []
        | _ :: s' => findall_from fuel r s'
        end
    end.
Proof. reflexivity. Qed.

Lemma findall_skip (r : regex) (x : char) (s : str) :
  re_match r (x :: s) = None -> findall r (x :: s) = findall r s.
Proof.
  intros H. unfold findall. now rewrite findall_from_step, H.
Qed.

Lemma findall_match (r : regex) (s rest : str) (gs : list str) :
  re_match r s = Some (gs, rest) -> (length rest < length s)%nat ->
  findall r s = hd [] gs :: findall r rest.
Proof.
  intros H Hlen. unfold findall.
  rewrite findall_from_step, H, (proj2 (Nat.ltb_lt _ _) Hlen). f_equal.
  apply findall_from_enough; lia.
Qed.

Lemma findall_item_nil : findall NUTRIENT_ITEM_REGEX [] = [].
Proof. reflexivity. Qed.

Lemma findall_fragment (frag tail : str) :
  has_char lparen frag = false -> item_boundary tail ->
  findall NUTRIENT_ITEM_REGEX (frag ++ tail) = findall NUTRIENT_ITEM_REGEX tail.
Proof.
  intros Hf Htail. induction frag as [|x f IH]; [reflexivity|].
  cbn [app]. rewrite findall_skip.
  - apply IH. now apply has_char_cons in Hf.
  - now apply (re_match_fragment (x :: f) tail).
Qed.

Lemma findall_comma (t : str) :
  findall NUTRIENT_ITEM_REGEX (comma :: t) = findall NUTRIENT_ITEM_REGEX t.
Proof. now apply findall_skip. Qed.

Lemma findall_item (n q tail : str) :
  n <> [] -> has_char comma n = false -> has_char lparen n = false ->
  has_char rparen q = false -> item_boundary tail ->
  findall NUTRIENT_ITEM_REGEX (n ++ lparen :: q ++ rparen :: tail)
  = (n ++ lparen :: q ++ [rparen]) :: findall NUTRIENT_ITEM_REGEX tail.
Proof.
  intros Hne Hn Hl Hq Htail.
  rewrite (findall_match _ _ tail [n ++ lparen :: q ++ [rparen]]).
  - reflexivity.
  - now apply re_match_item.
  - rewrite !length_app. cbn [length]. rewrite length_app. cbn [length]. lia.
Qed.

Lemma well_formed_spec (it : str * str) :
  well_formed it = true ->
  fst it <> [] /\ has_char comma (fst it) = false /\ has_char lparen (fst it) = false
  /\ has_char newline (lstrip (fst it)) = false
  /\ has_char rparen (snd it) = false /\ has_char newline (snd it) = false.
Proof.
  unfold well_formed. rewrite !andb_true_iff, !negb_true_iff, str_eqb_neq. tauto.
Qed.

Lemma item_text_tail (it : str * str) (tail : str) :
  item_text it ++ tail = fst it ++ lparen :: snd it ++ rparen :: tail.
Proof.
  unfold item_text. rewrite <- app_assoc. cbn [app]. now rewrite <- app_assoc.
Qed.

(** Of comma-joined segments, the nutrients are found one by one and the
    fragments are passed over. *)
Lemma findall_segments (segs : list segment) :
  forallb segment_ok segs = true ->
  findall NUTRIENT_ITEM_REGEX (join_comma (map segment_text segs))
  = flat_map segment_items segs.
Proof.
  induction segs as [|seg segs IH]; intros Hok; [reflexivity|].
  cbn [forallb] in Hok. apply andb_true_iff in Hok. destruct Hok as [Hseg Hok].
  specialize (IH Hok). destruct segs as [|seg' segs].
  - cbn [map join_comma flat_map]. rewrite app_nil_r. destruct seg as [it|frag].
    + destruct (well_formed_spec it Hseg) as (H1 & H2 & H3 & _ & H5 & _).
      cbn [segment_text segment_items]. rewrite <- (app_nil_r (item_text it)).
      rewrite item_text_tail, findall_item; auto. now left.
    + cbn [segment_text segment_items segment_ok] in *. apply negb_true_iff in Hseg.
      rewrite <- (app_nil_r frag). rewrite findall_fragment; [reflexivity | exact Hseg | now left].
  - change (join_comma (map segment_text (seg :: seg' :: segs)))
      with (segment_text seg ++ comma :: join_comma (map segment_text (seg' :: segs))).
    change (flat_map segment_items (seg :: seg' :: segs))
      with (segment_items seg ++ flat_map segment_items (seg' :: segs)).
    rewrite <- IH. destruct seg as [it|frag].
    + destruct (well_formed_spec it Hseg) as (H1 & H2 & H3 & _ & H5 & _).
      cbn [segment_text segment_items app]. rewrite item_text_tail.
      rewrite findall_item; try assumption; [now rewrite findall_comma | right; eauto].
    + cbn [segment_text segment_items segment_ok app] in *. apply negb_true_iff in Hseg.
      rewrite findall_fragment; [apply findall_comma | exact Hseg | right; eauto].
Qed.

Lemma nutrient_pair_item_text (it : str * str) :
  well_formed it = true -> nutrient_pair (item_text it) = trimmed it.
Proof.
  intros Hit. destruct (well_formed_spec it Hit) as (_ & _ & H3 & H4 & H5 & H6).
  unfold nutrient_pair, item_text. rewrite strip_item_text, re_match_name_and_qty.
  unfold name_and_qty.
  change (lstrip (fst it) ++ lparen :: snd it ++ [rparen])
    with (lstrip (fst it) ++ lparen :: (snd it ++ rparen :: [])).
  rewrite take_line_until_app; [|now apply lstrip_keeps_absent | assumption].
  rewrite take_line_until_app by assumption.
  cbn [nth]. now rewrite strip_lstrip.
Qed.

Lemma parse_nutrients_map (text : str) :
  parse_nutrients text = map nutrient_pair (findall NUTRIENT_ITEM_REGEX text).
Proof. unfold parse_nutrients. now rewrite fold_left_append_map. Qed.

Lemma map_nutrient_pair_items (items : list (str * str)) :
  forallb well_formed items = true ->
  map nutrient_pair (map item_text items) = map trimmed items.
Proof.
  induction items as [|it items IH]; intros H; [reflexivity|].
  cbn [forallb] in H. apply andb_true_iff in H. destruct H as [Hit H].
  cbn [map]. now rewrite nutrient_pair_item_text, IH.
Qed.

Lemma parse_nutrients_segments (segs : list segment) :
  forallb segment_ok segs = true ->
  parse_nutrients (join_comma (map segment_text segs)) = flat_map segment_pairs segs.
Proof.
  intros Hok. rewrite parse_nutrients_map, (findall_segments segs Hok).
  induction segs as [|seg segs IH]; [reflexivity|].
  cbn [forallb] in Hok. apply andb_true_iff in Hok. destruct Hok as [Hseg Hok].
  cbn [flat_map]. rewrite map_app, (IH Hok). f_equal.
  destruct seg as [it|frag]; [|reflexivity].
  cbn [segment_items segment_pairs map]. now rewrite nutrient_pair_item_text.
Qed.

(** Nutrients only. *)
Lemma parse_nutrients_joined (items : list (str * str)) :
  forallb well_formed items = true ->
  parse_nutrients (join_comma (map item_text items)) = map trimmed items.
Proof.
  intros Hwf.
  assert (Hok : forallb segment_ok (map Item items) = true).
  { induction items as [|it items IH]; [reflexivity|].
    cbn [forallb map segment_ok] in *. apply andb_true_iff in Hwf.
    destruct Hwf as [Hit Hwf]. now rewrite Hit, IH. }
  pose proof (parse_nutrients_segments (map Item items) Hok) as H.
  rewrite map_map in H. cbn [segment_text] in H.
  etransitivity; [exact H|]. clear. induction items as [|it items IH]; [reflexivity|].
  cbn [map flat_map segment_pairs app]. now rewrite IH.
Qed.

(** ** Documents *)

Lemma node_induction (Q : node -> Prop) :
  (forall nm cs, Forall Q cs -> Q (Tag nm cs)) ->
  (forall s, Q (NavigableString s)) ->
  (forall s, Q (Comment s)) ->
  forall n, Q n.
Proof.
  intros Htag Hstr Hcom. fix IH 1. intros [nm cs|s|s]; [|apply Hstr|apply Hcom].
  apply Htag. induction cs as [|c cs IHcs]; constructor; [apply IH | exact IHcs].
Qed.

Lemma nth_error_update_nth {A : Type} (f : A -> A) (l : list A) (i : nat) :
  nth_error (update_nth i f l) i = option_map f (nth_error l i).
Proof.
  revert i. induction l as [|x l IH]; intros [|i]; cbn; auto.
Qed.

(** Every descendant sits at the path it is listed with. *)
Lemma descendants_subtree_at (n : node) :
  forall p d, In (p, d) (descendants n) -> subtree_at p n = Some d.
Proof.
  induction n as [nm cs IH| |] using node_induction; cbn [descendants];
    [|contradiction|contradiction].
  assert (G : forall i pre, length pre = i ->
            forall p d, In (p, d) (contents_from descendants i cs) ->
                        subtree_at p (Tag nm (pre ++ cs)) = Some d).
  { induction IH as [|c cs Hc _ IHcs]; intros i pre Hlen p d Hin; [contradiction|].
    subst i. cbn [contents_from] in Hin. destruct Hin as [Hin|Hin].
    - inversion Hin; subst. cbn [subtree_at].
      rewrite nth_error_app2, Nat.sub_diag by lia. reflexivity.
    - apply in_app_or in Hin. destruct Hin as [Hin|Hin].
      + apply in_map_iff in Hin. destruct Hin as ([q e] & Heq & Hin).
        unfold under in Heq. cbn [fst snd] in Heq. inversion Heq; subst.
        cbn [subtree_at]. rewrite nth_error_app2, Nat.sub_diag by lia.
        cbn [nth_error]. destruct q as [|j q]; [|now apply Hc].
        now apply Hc.
      + specialize (IHcs (S (length pre)) (pre ++ [c])).
        rewrite <- app_assoc in IHcs. apply IHcs; [|exact Hin].
        rewrite length_app. cbn. lia. }
  intros p d Hin. exact (G 0%nat [] eq_refl p d Hin).
Qed.

(** The document holds the changed tag where the old one was. *)
Lemma subtree_at_replace_at (p : path) (new : node) :
  forall n old, subtree_at p n = Some old -> subtree_at p (replace_at p new n) = Some new.
Proof.
  induction p as [|i p IH]; intros n old H; [reflexivity|].
  destruct n as [nm cs| |]; cbn [subtree_at] in H; try discriminate.
  cbn [replace_at subtree_at]. rewrite nth_error_update_nth.
  destruct (nth_error cs i) as [c|]; [|discriminate]. cbn [option_map].
  now apply (IH c old).
Qed.

(** Strings are stripped one by one and joined with nothing between them;
    comments are left out; a string of whitespace only leaves nothing. *)
Example get_text_joins_stripped_strings :
  get_text (Tag (py "p")
              [NavigableString (py " a "); Comment (py "x");
               Tag (py "em") [NavigableString (py "b ")]; NavigableString (py "  ")])
  = py "ab".
Proof. reflexivity. Qed.

(** Paragraphs inside paragraphs are blocks too, the outer one first. *)
Example find_all_nested :
  map fst (find_all (Tag (py "[document]")
                       [Tag (py "p") [NavigableString (py "a");
                                      Tag (py "p") [NavigableString (py "b")]];
                        Tag (py "p") []])
                    (py "p"))
  = [[0%nat]; [0%nat; 1%nat]; [1%nat]].
Proof. reflexivity. Qed.

(** The strings below a contents list do not depend on where it starts. *)
Lemma contents_from_nodes (i j : nat) (cs : list node) :
  map snd (contents_from descendants i cs) = map snd (contents_from descendants j cs).
Proof.
  revert i j. induction cs as [|c cs IH]; intros i j; [reflexivity|].
  cbn [contents_from map]. rewrite !map_app, !map_map. cbn [under snd].
  f_equal. f_equal. apply IH.
Qed.

Lemma get_text_nodes (n : node) : get_text n = text_of_nodes (map snd (descendants n)).
Proof.
  unfold get_text, text_of_nodes. f_equal.
  induction (descendants n) as [|e l IH]; [reflexivity|].
  cbn [flat_map map]. now rewrite IH.
Qed.

Lemma get_text_cons (nm : str) (c : node) (cs : list node) :
  get_text (Tag nm (c :: cs))
  = concat (stripped_string c) ++ get_text c ++ get_text (Tag nm cs).
Proof.
  rewrite !get_text_nodes. cbn [descendants contents_from map].
  rewrite map_app, map_map. cbn [under snd].
  rewrite (contents_from_nodes 1 0).
  unfold text_of_nodes. cbn [flat_map]. rewrite flat_map_app, !concat_app. reflexivity.
Qed.

Lemma get_text_strings (n : node) : get_text n = concat (strings_of n).
Proof. apply get_text_nodes. Qed.












(** ** The extractors *)

Section ExtractorFacts.
Context {L : StrLower}.

(** The label loop returns at the first label the strong text holds, and
    what it returns does not depend on which label that was. *)
Lemma extract_field_labels_eq (soup : node) (at_p : path) (p : node)
      (at_strong : path) (strong_text : str) (labels : list str) :
  extract_field_labels soup at_p p at_strong strong_text labels
  = if existsb (fun label => str_in (lower label) strong_text) labels
    then Some (get_text (extract at_strong p),
               replace_at at_p (extract at_strong p) soup)
    else None.
Proof.
  induction labels as [|label labels IH]; cbn [extract_field_labels existsb].
  - reflexivity.
  - destruct (str_in (lower label) strong_text); [reflexivity | exact IH].
Qed.

(** One paragraph of the scan: a block with the label ends it, any other
    block is passed over. *)
Lemma extract_field_paragraphs_cons (soup : node) (at_p : path) (p : node)
      (ps : list (path * node)) (labels : list str) :
  extract_field_paragraphs soup ((at_p, p) :: ps) labels
  = if has_label labels p
    then (get_text (without_lead_in p), replace_at at_p (without_lead_in p) soup)
    else extract_field_paragraphs soup ps labels.
Proof.
  cbn [extract_field_paragraphs]. unfold has_label, lead_in, without_lead_in, normalized.
  destruct (find p (py "strong")) as [[at_strong strong]|]; cbn [option_map snd].
  - rewrite extract_field_labels_eq.
    now destruct (existsb _ labels).
  - reflexivity.
Qed.

Lemma extract_field_paragraphs_text (soup : node) (ps : list (path * node))
      (labels : list str) :
  fst (extract_field_paragraphs soup ps labels)
  = match List.find (has_label labels) (map snd ps) with
    | Some block => get_text (without_lead_in block)
    | None => []
    end.
Proof.
  induction ps as [|[at_p p] ps IH]; [reflexivity|].
  rewrite extract_field_paragraphs_cons. cbn [map snd List.find].
  destruct (has_label labels p); [reflexivity | exact IH].
Qed.

Lemma extract_description_paragraphs_cons (at_p : path) (p : node)
      (ps : list (path * node)) :
  extract_description_paragraphs ((at_p, p) :: ps)
  = if has_marker p then extract_description_paragraphs ps else get_text p.
Proof.
  cbn [extract_description_paragraphs]. unfold has_marker, lead_in, normalized.
  destruct (find p (py "strong")) as [[at_strong strong]|]; reflexivity.
Qed.

Lemma extract_description_paragraphs_text (ps : list (path * node)) :
  extract_description_paragraphs ps
  = match List.find (fun block => negb (has_marker block)) (map snd ps) with
    | Some block => get_text block
    | None => []
    end.
Proof.
  induction ps as [|[at_p p] ps IH]; [reflexivity|].
  rewrite extract_description_paragraphs_cons. cbn [map snd List.find].
  destruct (has_marker p); [exact IH | reflexivity].
Qed.

(** A document with nothing in it gives every extraction the empty string
    and is left as it is. *)
Lemma extract_field_empty (doc : node) (labels : list str) :
  empty_document doc -> extract_field doc labels = ([], doc).
Proof.
  unfold empty_document, extract_field, find_all. now intros ->.
Qed.

Lemma extract_description_empty (doc : node) :
  empty_document doc -> extract_description doc = [].
Proof.
  unfold empty_document, extract_description, find_all. now intros ->.
Qed.

(** What the scan does to the document: the lead-in of the block it stops
    at is gone, and nothing else has changed; when it stops nowhere the
    document is as it was. *)
Lemma extract_field_paragraphs_document (soup : node) (ps : list (path * node))
      (labels : list str) :
  snd (extract_field_paragraphs soup ps labels)
  = match List.find (fun e => has_label labels (snd e)) ps with
    | Some (at_p, p) => replace_at at_p (without_lead_in p) soup
    | None => soup
    end.
Proof.
  induction ps as [|[at_p p] ps IH]; [reflexivity|].
  rewrite extract_field_paragraphs_cons. cbn [List.find snd].
  destruct (has_label labels p); [reflexivity | exact IH].
Qed.

Lemma extract_field_document (doc : node) (labels : list str) :
  match List.find (fun e => has_label labels (snd e)) (find_all doc (py "p")) with
  | Some (at_p, p) =>
      subtree_at at_p doc = Some p
      /\ snd (extract_field doc labels) = replace_at at_p (without_lead_in p) doc
      /\ subtree_at at_p (snd (extract_field doc labels)) = Some (without_lead_in p)
  | None => snd (extract_field doc labels) = doc
  end.
Proof.
  unfold extract_field. rewrite extract_field_paragraphs_document.
  destruct (List.find _ (find_all doc (py "p"))) as [[at_p p]|] eqn:E; [|reflexivity].
  apply find_some in E. destruct E as [Hin _].
  unfold find_all in Hin. apply filter_In in Hin. destruct Hin as [Hin _].
  pose proof (descendants_subtree_at doc at_p p Hin) as Hsub.
  split; [exact Hsub | split; [reflexivity|]].
  now apply (subtree_at_replace_at at_p _ doc p).
Qed.


(** A lead-in that opens its block: taking it out leaves the text of the
    rest of the block. *)
Lemma without_leading_strong (nm : str) (cs rest : list node) :
  get_text (without_lead_in (Tag nm (Tag (py "strong") cs :: rest)))
  = get_text (Tag nm rest).
Proof. reflexivity. Qed.
End ExtractorFacts.

(** ** Objects and the row builder *)

Lemma update_nth_last {A : Type} (h : list A) (a b : A) :
  update_nth (length h) (fun _ => b) (h ++ [a]) = h ++ [b].
Proof. induction h as [|x h IH]; cbn; [reflexivity | now rewrite IH]. Qed.

Lemma nth_error_last {A : Type} (h : list A) (a : A) :
  nth_error (h ++ [a]) (length h) = Some a.
Proof. now rewrite nth_error_app2, Nat.sub_diag by lia. Qed.

Section ObjectFacts.
Context {P : HtmlParser}.

(** A call on a document built for it: the value is that of a new parse,
    the heap grows by that one object, and nothing else in it changes. *)
Lemma call_on_new_soup {A B : Type} (markup : str) (f : node -> A * node)
      (k : A -> M B) (h : heap) :
  (s <- BeautifulSoup (Some markup) ;; x <- call_on_soup f s ;; k x) h
  = k (fst (f (html_parser markup))) (h ++ [snd (f (html_parser markup))]).
Proof.
  unfold bind, BeautifulSoup, call_on_soup. rewrite nth_error_last.
  destruct (f (html_parser markup)) as [a doc']. now rewrite update_nth_last.
Qed.

Lemma read_new_soup {A B : Type} (markup : str) (f : node -> A)
      (k : A -> M B) (h : heap) :
  (s <- BeautifulSoup (Some markup) ;; x <- read_soup f s ;; k x) h
  = k (f (html_parser markup)) (h ++ [html_parser markup]).
Proof.
  unfold bind, BeautifulSoup, read_soup. now rewrite nth_error_last.
Qed.
End ObjectFacts.

Lemma py_or_string (s : str) : py_or (Some s) [] = s.
Proof. now destruct s. Qed.

Section BuilderFacts.
Context {L : StrLower} {P : HtmlParser}.

(** With a string for markup the builder returns, and its rows are those of
    the fields taken one by one. *)
Lemma build_rows_for_product_run (sku : str) (title : value) (body_html : str)
      (h : heap) :
  build_rows_for_product sku title (Some body_html) h
  = Ok (rows_of_product sku title body_html, h ++ documents_built body_html).
Proof.
  unfold build_rows_for_product.
  rewrite read_new_soup. rewrite !call_on_new_soup.
  unfold ret, rows_of_product, documents_built, field_of, document_after.
  rewrite py_or_string, <- !app_assoc. reflexivity.
Qed.

(** With [None] for markup the description is extracted, from an empty
    string, and the next call raises. *)
Lemma build_rows_for_product_none (sku : str) (title : value) (h : heap) :
  build_rows_for_product sku title None h = Raise TypeError.
Proof.
  unfold build_rows_for_product. rewrite read_new_soup. reflexivity.
Qed.

(** The builder returns, or raises [TypeError]: it never reaches for an
    object that is not there. *)
Lemma build_rows_for_product_outcomes (sku : str) (title body_html : value) (h : heap) :
  (exists rows h', build_rows_for_product sku title body_html h = Ok (rows, h'))
  \/ build_rows_for_product sku title body_html h = Raise TypeError.
Proof.
  destruct body_html as [markup|].
  - left. rewrite build_rows_for_product_run. eauto.
  - right. apply build_rows_for_product_none.
Qed.
End BuilderFacts.

(** ** Rows *)

Section RowFacts.
Variables (sku : str) (title : value).
Variables description allergen ingredients storage weight origin : str.

Abbreviation loop :=
  (build_rows_loop sku title description allergen ingredients storage weight origin).
Abbreviation rows_of :=
  (rows_of_pairs sku title description allergen ingredients storage weight origin).

Lemma build_rows_loop_later (i : nat) (pairs : list (str * str)) (rows : list row) :
  loop (S i) pairs rows = rows ++ map nutrient_row pairs.
Proof.
  revert i rows. induction pairs as [|[n q] pairs IH]; intros i rows.
  - cbn. now rewrite app_nil_r.
  - cbn [build_rows_loop Nat.eqb map]. rewrite IH, <- app_assoc. reflexivity.
Qed.

Lemma rows_of_pairs_cons (pair : str * str) (pairs : list (str * str)) :
  rows_of (pair :: pairs)
  = {| SKU := sku; Title := title; Description := description;
       Allergen := allergen; Ingredients := ingredients; Storage := storage;
       Weight := weight; Origin := origin;
       Nutrient := fst pair; Quantity := snd pair |}
    :: map nutrient_row pairs.
Proof.
  destruct pair as [n q]. cbn [rows_of_pairs build_rows_loop Nat.eqb].
  now rewrite build_rows_loop_later.
Qed.

Lemma rows_of_pairs_length (pairs : list (str * str)) :
  length (rows_of pairs) = Nat.max 1 (length pairs).
Proof.
  destruct pairs as [|pair pairs]; [reflexivity|].
  rewrite rows_of_pairs_cons. cbn [length]. rewrite length_map. lia.
Qed.

Lemma rows_of_pairs_first (pairs : list (str * str)) :
  exists r0, nth_error (rows_of pairs) 0 = Some r0
             /\ product_columns r0
                = [Some sku; title; Some description; Some allergen;
                   Some ingredients; Some storage; Some weight; Some origin].
Proof.
  destruct pairs as [|pair pairs].
  - eexists. split; reflexivity.
  - rewrite rows_of_pairs_cons. eexists. split; reflexivity.
Qed.

Lemma rows_of_pairs_later (pairs : list (str * str)) (i : nat) (r : row) :
  (1 <= i)%nat -> nth_error (rows_of pairs) i = Some r ->
  exists pair, nth_error pairs i = Some pair /\ r = nutrient_row pair.
Proof.
  intros Hi Hr. destruct i as [|i]; [lia|].
  destruct pairs as [|pair pairs].
  - cbn in Hr. now destruct i.
  - rewrite rows_of_pairs_cons in Hr. cbn [nth_error] in *.
    rewrite nth_error_map in Hr.
    destruct (nth_error pairs i) as [pr|]; [|discriminate].
    inversion Hr. eauto.
Qed.
End RowFacts.

(** ** Dicts *)

Lemma dict_get_set_same {V : Type} (d : dict V) (k : str) (v : V) :
  dict_get (dict_set d k v) k = Some v.
Proof.
  induction d as [|[k' v'] d IH]; cbn [dict_set dict_get].
  - now rewrite str_eqb_refl.
  - destruct (str_eqb k' k) eqn:E; cbn [dict_get].
    + now rewrite str_eqb_refl.
    + now rewrite E.
Qed.

Lemma dict_get_set_other {V : Type} (d : dict V) (k k' : str) (v : V) :
  k' <> k -> dict_get (dict_set d k v) k' = dict_get d k'.
Proof.
  intros Hne. induction d as [|[k0 v0] d IH]; cbn [dict_set dict_get].
  - apply str_eqb_neq in Hne. destruct (str_eqb k k') eqn:E; [|reflexivity].
    apply str_eqb_eq in E. apply str_eqb_neq in Hne. congruence.
  - destruct (str_eqb k0 k) eqn:E; cbn [dict_get].
    + apply str_eqb_eq in E. subst k0.
      destruct (str_eqb k k') eqn:E'; [|reflexivity].
      apply str_eqb_eq in E'. congruence.
    + destruct (str_eqb k0 k'); [reflexivity | exact IH].
Qed.

Lemma dict_get_in_keys {V : Type} (d : dict V) (k : str) :
  In k (map fst d) <-> dict_get d k <> None.
Proof.
  induction d as [|[k' v'] d IH]; cbn [map fst In dict_get]; [tauto|].
  destruct (str_eqb k' k) eqn:E.
  - apply str_eqb_eq in E. split; [discriminate | auto].
  - apply str_eqb_neq in E. rewrite <- IH. tauto.
Qed.

(** Setting a key keeps the keys in place; a new key goes last. *)
Lemma dict_set_keys {V : Type} (d : dict V) (k : str) (v : V) :
  map fst (dict_set d k v)
  = if dict_mem d k then map fst d else map fst d ++ [k].
Proof.
  unfold dict_mem. induction d as [|[k' v'] d IH]; cbn [dict_set dict_get map fst app].
  - reflexivity.
  - destruct (str_eqb k' k) eqn:E; cbn [map fst].
    + apply str_eqb_eq in E. now subst.
    + rewrite IH. now destruct (dict_get d k).
Qed.

Lemma dict_set_NoDup {V : Type} (d : dict V) (k : str) (v : V) :
  NoDup (map fst d) -> NoDup (map fst (dict_set d k v)).
Proof.
  intros Hd. rewrite dict_set_keys. unfold dict_mem.
  destruct (dict_get d k) eqn:E; [exact Hd|].
  apply NoDup_app; [exact Hd | repeat constructor; auto | ].
  intros x Hx [<-|[]]. apply dict_get_in_keys in Hx. congruence.
Qed.

(** ** The aggregation loop *)

Lemma last_write_snoc (I g : str) (seen : list record) (r : record) :
  last_write I g (seen ++ [r])
  = if writes I g r then Some (dict_get_or r (py "translation") (Some []))
    else last_write I g seen.
Proof.
  unfold last_write. rewrite filter_app, rev_app_distr. cbn [filter].
  destruct (writes I g r); [reflexivity|]. cbn [rev app]. reflexivity.
Qed.

Lemma last_write_unseen (I g : str) (seen : list record) :
  existsb (mentions I) seen = false -> last_write I g seen = None.
Proof.
  intros H. unfold last_write.
  assert (E : filter (writes I g) seen = []).
  { induction seen as [|r seen IH]; [reflexivity|].
    cbn [existsb] in H. apply orb_false_iff in H. destruct H as [Hr H].
    cbn [filter]. unfold writes. rewrite Hr. cbn [andb].
    now apply IH. }
  now rewrite E.
Qed.

Lemma key_is_exclusive (key : value) :
  key_is key (py "title") = true -> key_is key (py "body_html") = false.
Proof.
  destruct key as [k|]; cbn [key_is]; [|discriminate].
  intros H. apply str_eqb_eq in H. subst k. reflexivity.
Qed.

Lemma mentions_sku (I : str) (r : record) (sku : str) :
  dict_get_or r (py "sku") (Some []) = Some sku -> mentions I r = str_eqb sku I.
Proof. unfold mentions. now intros ->. Qed.

(** A record with no identifier, a null one or an empty one carries no
    identifier a draft is kept for. *)
Lemma mentions_skipped (I : str) (r : record) :
  truthy (dict_get_or r (py "sku") (Some [])) = false -> I <> [] -> mentions I r = false.
Proof.
  unfold mentions. destruct (dict_get_or r (py "sku") (Some [])) as [[|c s]|];
    cbn [truthy]; try discriminate; intros _ HI; [|reflexivity].
  apply str_eqb_neq. congruence.
Qed.

Lemma consistent_after (seen : list record) (products products' : dict (dict value))
      (r : record) (c : char) (s : str) (info' : dict value) :
  consistent seen products ->
  dict_get_or r (py "sku") (Some []) = Some (c :: s) ->
  NoDup (map fst products') ->
  dict_get products' (c :: s) = Some info' ->
  (forall I, I <> c :: s -> dict_get products' I = dict_get products I) ->
  (forall g, is_field g ->
             dict_get info' g
             = if key_is (dict_get_or r (py "key") None) g
               then Some (dict_get_or r (py "translation") (Some []))
               else last_write (c :: s) g seen) ->
  consistent (seen ++ [r]) products'.
Proof.
  intros (Hnd & Hmem & Hinfo) Hsku Hnd' HK Hother Hfields. repeat split.
  - exact Hnd'.
  - intros I. rewrite existsb_app. cbn [existsb]. rewrite orb_false_r.
    rewrite (mentions_sku I r _ Hsku).
    destruct (list_eq_dec N.eq_dec I (c :: s)) as [->|Hne].
    + unfold dict_mem. rewrite HK, str_eqb_refl, orb_true_r. reflexivity.
    + assert (E : str_eqb (c :: s) I = false) by (apply str_eqb_neq; congruence).
      rewrite E, orb_false_r, <- Hmem. unfold dict_mem. now rewrite Hother.
  - intros I info g HI Hg. rewrite last_write_snoc. unfold writes.
    rewrite (mentions_sku I r _ Hsku).
    destruct (list_eq_dec N.eq_dec I (c :: s)) as [->|Hne].
    + rewrite str_eqb_refl. cbn [andb]. rewrite HK in HI. inversion HI; subst.
      now apply Hfields.
    + assert (E : str_eqb (c :: s) I = false) by (apply str_eqb_neq; congruence).
      rewrite E. cbn [andb]. rewrite Hother in HI by exact Hne. now apply Hinfo.
Qed.

(** A skipped record changes nothing. *)
Lemma consistent_skip (seen : list record) (products : dict (dict value)) (r : record) :
  consistent seen products ->
  truthy (dict_get_or r (py "sku") (Some [])) = false ->
  consistent (seen ++ [r]) products.
Proof.
  intros (Hnd & Hmem & Hinfo) Hsku. repeat split.
  - exact Hnd.
  - intros I. rewrite existsb_app. cbn [existsb]. rewrite orb_false_r, Hmem.
    destruct (str_eqb I []) eqn:E; [reflexivity|]. apply str_eqb_neq in E.
    now rewrite (mentions_skipped I r Hsku E), orb_false_r.
  - intros I info g HI Hg. rewrite last_write_snoc. unfold writes.
    assert (HI' : I <> []).
    { intros ->. specialize (Hmem []). unfold dict_mem in Hmem.
      rewrite HI in Hmem. discriminate. }
    rewrite (mentions_skipped I r Hsku HI'). cbn [andb]. now apply Hinfo.
Qed.

Lemma aggregate_record_step (seen : list record) (products : dict (dict value))
      (r : record) :
  consistent seen products ->
  exists products',
    aggregate_record products r = Ok products' /\ consistent (seen ++ [r]) products'.
Proof.
  intros Hc. pose proof Hc as (Hnd & Hmem & Hinfo). unfold aggregate_record.
  destruct (dict_get_or r (py "sku") (Some [])) as [[|c s]|] eqn:Hsku.
  - exists products. split; [reflexivity|]. apply consistent_skip; [exact Hc|].
    now rewrite Hsku.
  - set (K := c :: s) in *.
    set (products1 := if negb (dict_mem products K) then dict_set products K [] else products).
    assert (H1 : NoDup (map fst products1)
                 /\ (exists info0, dict_get products1 K = Some info0
                       /\ forall g, is_field g -> dict_get info0 g = last_write K g seen)
                 /\ forall I, I <> K -> dict_get products1 I = dict_get products I).
    { subst products1. destruct (dict_mem products K) eqn:EK; cbn [negb].
      - split; [exact Hnd | split; [|reflexivity]].
        unfold dict_mem in EK. destruct (dict_get products K) as [info0|] eqn:E0;
          [|discriminate]. exists info0. split; [reflexivity|].
        intros g Hg. now apply Hinfo.
      - split; [|split].
        + now apply dict_set_NoDup.
        + exists []. split; [apply dict_get_set_same|]. intros g _.
          rewrite last_write_unseen; [reflexivity|].
          rewrite Hmem in EK. now destruct (existsb (mentions K) seen).
        + intros I HI. now apply dict_get_set_other. }
    destruct H1 as (Hnd1 & (info0 & HK1 & Hinfo0) & Hother1). rewrite HK1.
    destruct (key_is (dict_get_or r (py "key") None) (py "title")) eqn:Et;
      [|destruct (key_is (dict_get_or r (py "key") None) (py "body_html")) eqn:Eb].
    + eexists. split; [reflexivity|].
      eapply (consistent_after seen products _ r c s); eauto.
      * now apply dict_set_NoDup.
      * apply dict_get_set_same.
      * intros I HI. fold K in HI. rewrite dict_get_set_other by exact HI. now apply Hother1.
      * intros g [->| ->].
        -- rewrite Et. apply dict_get_set_same.
        -- rewrite (key_is_exclusive _ Et), dict_get_set_other by discriminate.
           apply Hinfo0. now right.
    + eexists. split; [reflexivity|].
      eapply (consistent_after seen products _ r c s); eauto.
      * now apply dict_set_NoDup.
      * apply dict_get_set_same.
      * intros I HI. fold K in HI. rewrite dict_get_set_other by exact HI. now apply Hother1.
      * intros g [->| ->].
        -- rewrite Et, dict_get_set_other by discriminate. apply Hinfo0. now left.
        -- rewrite Eb. apply dict_get_set_same.
    + exists products1. split; [reflexivity|].
      eapply (consistent_after seen products _ r c s); eauto.
      intros g [->| ->]; [rewrite Et | rewrite Eb]; apply Hinfo0; [now left | now right].
  - exists products. split; [reflexivity|]. apply consistent_skip; [exact Hc|].
    now rewrite Hsku.
Qed.

Lemma aggregate_from_consistent (data seen : list record) (products : dict (dict value)) :
  consistent seen products ->
  exists final, aggregate_from products data = Ok final /\ consistent (seen ++ data) final.
Proof.
  revert seen products. induction data as [|r data IH]; intros seen products Hc.
  - exists products. now rewrite app_nil_r.
  - destruct (aggregate_record_step seen products r Hc) as (products' & Hstep & Hc').
    destruct (IH _ _ Hc') as (final & Hrun & Hfinal).
    exists final. cbn [aggregate_from]. rewrite Hstep. rewrite <- app_assoc in Hfinal.
    now split.
Qed.

(** The loop never raises, and leaves [products] consistent with the
    input. *)
Lemma aggregate_consistent (data : list record) :
  exists products, aggregate data = Ok products /\ consistent data products.
Proof.
  apply (aggregate_from_consistent data [] []). repeat split.
  - constructor.
  - intros I. cbn. now rewrite andb_false_r.
  - intros I info g H. discriminate.
Qed.

(** ** Containment *)

Lemma startswith_spec (s pre : str) :
  startswith s pre = true <-> exists post, s = pre ++ post.
Proof.
  revert s. induction pre as [|a pre IH]; intros s; cbn [startswith app].
  - split; eauto.
  - destruct s as [|b s].
    + split; [discriminate | intros [post H]; discriminate].
    + rewrite andb_true_iff, N.eqb_eq, IH. split.
      * intros [-> [post ->]]. eauto.
      * intros [post H]. inversion H; subst. eauto.
Qed.

(** [sub in s] holds exactly when [sub] is a substring of [s]. *)
Lemma str_in_spec (sub s : str) :
  str_in sub s = true <-> exists pre post, s = pre ++ sub ++ post.
Proof.
  induction s as [|x s IH]; cbn [str_in]; rewrite orb_true_iff, startswith_spec.
  - split.
    + intros [[post H]|H]; [|discriminate]. exists [], post. exact H.
    + intros (pre & post & H). left. destruct pre; [|discriminate]. eauto.
  - rewrite IH. split.
    + intros [[post H]|(pre & post & H)].
      * exists [], post. exact H.
      * exists (x :: pre), post. now rewrite H.
    + intros (pre & post & H). destruct pre as [|y pre].
      * left. eauto.
      * right. inversion H; subst. eauto.
Qed.

Lemma str_in_refl (s : str) : str_in s s = true.
Proof. apply str_in_spec. exists [], []. now rewrite app_nil_r. Qed.

(** ** What the item pattern finds *)

Lemma star_greedy_sound {R : Type} (cs : charset) (s : str) (k : str -> option R)
      (r : R) :
  star_greedy cs s k = Some r ->
  exists a s', s = a ++ s' /\ forallb (charset_matches cs) a = true /\ k s' = Some r.
Proof.
  induction s as [|x s IH]; cbn [star_greedy]; intros H.
  - exists [], []. auto.
  - destruct (charset_matches cs x) eqn:Ex.
    + destruct (star_greedy cs s k) as [r'|] eqn:E.
      * inversion H; subst. destruct (IH eq_refl) as (a & s' & -> & Ha & Hk).
        exists (x :: a), s'. cbn [forallb app]. rewrite Ex, Ha. auto.
      * exists [], (x :: s). auto.
    + exists [], (x :: s). auto.
Qed.

Lemma after_first_split (c : char) (s rest : str) :
  after_first c s = Some rest ->
  exists b, s = b ++ c :: rest /\ has_char c b = false.
Proof.
  revert rest. induction s as [|x s IH]; cbn [after_first]; intros rest H; [discriminate|].
  destruct (x =? c) eqn:E.
  - apply N.eqb_eq in E. inversion H; subst. exists []. auto.
  - destruct (IH rest H) as (b & -> & Hb). exists (x :: b). split; [reflexivity|].
    apply has_char_cons. apply N.eqb_neq in E. auto.
Qed.

(** Whatever the item pattern matches is a run of non-comma characters, an
    opening parenthesis, and text up to the first closing parenthesis. *)
Lemma re_match_item_sound (s rest : str) (gs : list str) :
  re_match NUTRIENT_ITEM_REGEX s = Some (gs, rest) ->
  exists a b,
    gs = [a ++ lparen :: b ++ [rparen]] /\ s = (a ++ lparen :: b ++ [rparen]) ++ rest
    /\ a <> [] /\ has_char comma a = false /\ has_char rparen b = false.
Proof.
  rewrite re_match_item_unfold. destruct s as [|x s1]; cbn [one_char]; [discriminate|].
  destruct (charset_matches (NotLit comma) x) eqn:Ex; [|discriminate].
  intros H. apply star_greedy_sound in H. destruct H as (a & s' & -> & Ha & H).
  rewrite after_run_eq in H. destruct s' as [|y s'']; [discriminate|].
  destruct (y =? lparen) eqn:Ey; [|discriminate].
  apply N.eqb_eq in Ey. subst y.
  destruct (after_first rparen s'') as [rest'|] eqn:E; [|discriminate].
  apply after_first_split in E. destruct E as (b & -> & Hb).
  assert (Hrest : rest' = rest) by congruence. subst rest'.
  assert (Hs : x :: a ++ lparen :: b ++ rparen :: rest
               = ((x :: a) ++ lparen :: b ++ [rparen]) ++ rest).
  { cbn [app]. rewrite <- !app_assoc. cbn [app]. now rewrite <- app_assoc. }
  rewrite Hs, firstn_prefix in H. rewrite Hs.
  exists (x :: a), b. repeat split; auto; [congruence | discriminate |].
  apply has_char_cons. cbn [charset_matches] in Ex. apply negb_true_iff, N.eqb_neq in Ex.
  split; [exact Ex|]. clear -Ha. induction a as [|y a IH]; [reflexivity|].
  cbn [forallb] in Ha. apply andb_true_iff in Ha. destruct Ha as [Hy Ha].
  apply has_char_cons. cbn [charset_matches] in Hy. apply negb_true_iff, N.eqb_neq in Hy.
  auto.
Qed.

Lemma findall_from_items (fuel : nat) (s : str) :
  Forall parenthesized (findall_from fuel NUTRIENT_ITEM_REGEX s).
Proof.
  revert s. induction fuel as [|fuel IH]; intros s; [constructor|].
  rewrite findall_from_step.
  destruct (re_match NUTRIENT_ITEM_REGEX s) as [[gs rest]|] eqn:E.
  - apply re_match_item_sound in E. destruct E as (a & b & -> & _ & Ha & Hc & Hr).
    assert (Hp : parenthesized (a ++ lparen :: b ++ [rparen])) by (exists a, b; auto).
    destruct (length rest <? length s)%nat; [constructor; auto|].
    destruct s; constructor; auto.
  - destruct s; [constructor | apply IH].
Qed.

(** ** The row loop *)

Section PipelineFacts.
Context {L : StrLower} {P : HtmlParser}.

Lemma all_csv_rows_loop_run (items : dict (dict value)) (acc : list row) (h : heap) :
  Forall markup_is_string items ->
  exists h', all_csv_rows_loop items acc h = Ok (acc ++ flat_map rows_of_item items, h').
Proof.
  intros Hitems. revert acc h.
  induction Hitems as [|[sku info] items Hstr _ IH]; intros acc h.
  - exists h. cbn. now rewrite app_nil_r.
  - cbn [all_csv_rows_loop flat_map]. unfold rows_of_item at 1. cbn [fst snd].
    unfold markup_is_string in Hstr. cbn [snd] in Hstr.
    destruct (dict_get_or info (py "body_html") (Some [])) as [body|]; [|congruence].
    unfold bind at 1. rewrite build_rows_for_product_run, py_or_string.
    destruct (IH (acc ++ rows_of_product sku (dict_get_or info (py "title") (Some [])) body)
                 (h ++ documents_built body)) as (h' & Hrun).
    exists h'. rewrite Hrun. now rewrite app_assoc.
Qed.

Lemma all_csv_rows_loop_outcomes (items : dict (dict value)) (acc : list row)
      (h : heap) :
  (exists rows h', all_csv_rows_loop items acc h = Ok (rows, h'))
  \/ all_csv_rows_loop items acc h = Raise TypeError.
Proof.
  revert acc h. induction items as [|[sku info] items IH]; intros acc h.
  - left. cbn. unfold ret. eauto.
  - cbn [all_csv_rows_loop]. unfold bind.
    destruct (build_rows_for_product_outcomes sku
                (dict_get_or info (py "title") (Some []))
                (dict_get_or info (py "body_html") (Some [])) h)
      as [(rows & h' & ->)| ->]; [apply IH | now right].
Qed.

(** The script writes its rows or stops on a [TypeError]; it raises nothing
    else. *)
Lemma csv_rows_outcomes (data : list record) :
  (exists rows, csv_rows data = Ok rows) \/ csv_rows data = Raise TypeError.
Proof.
  unfold csv_rows. destruct (aggregate_consistent data) as (products & -> & _).
  destruct (all_csv_rows_loop_outcomes products [] []) as [(rows & h' & ->)| ->];
    [left; eauto | now right].
Qed.

Lemma csv_rows_run (data : list record) (products : dict (dict value)) :
  aggregate data = Ok products -> Forall markup_is_string products ->
  csv_rows data = Ok (flat_map rows_of_item products).
Proof.
  intros H Hstr. unfold csv_rows. rewrite H.
  destruct (all_csv_rows_loop_run products [] [] Hstr) as (h' & Hrun). now rewrite Hrun.
Qed.

Lemma rows_of_product_empty (sku : str) (title : value) (body_html : str) :
  empty_document (html_parser body_html) ->
  rows_of_product sku title body_html = [blank_row sku title].
Proof.
  intros He. unfold rows_of_product, field_of.
  rewrite (extract_description_empty _ He), !(extract_field_empty _ _ He).
  reflexivity.
Qed.

Lemma filter_nutrient_rows (I : str) (pairs : list (str * str)) :
  I <> [] -> filter (fun r => str_eqb (SKU r) I) (map nutrient_row pairs) = [].
Proof.
  intros HI. induction pairs as [|pair pairs IH]; [reflexivity|].
  cbn [map filter nutrient_row SKU].
  assert (E : str_eqb [] I = false) by (apply str_eqb_neq; congruence).
  now rewrite E.
Qed.

Lemma filter_rows_of_other (I sku : str) (title : value) (body_html : str) :
  I <> [] -> sku <> I ->
  filter (fun r => str_eqb (SKU r) I) (rows_of_product sku title body_html) = [].
Proof.
  intros HI Hne. apply str_eqb_neq in Hne. unfold rows_of_product.
  destruct (parse_nutrients _) as [|pair pairs].
  - cbn [rows_of_pairs filter SKU]. now rewrite Hne.
  - rewrite rows_of_pairs_cons. cbn [filter SKU]. rewrite Hne.
    now apply filter_nutrient_rows.
Qed.

Lemma filter_rows_of_others (I : str) (items : dict (dict value)) :
  I <> [] -> ~ In I (map fst items) ->
  filter (fun r => str_eqb (SKU r) I) (flat_map rows_of_item items) = [].
Proof.
  intros HI. induction items as [|[k v] items IH]; intros Hnot; [reflexivity|].
  cbn [flat_map map fst In] in *. rewrite filter_app, IH by tauto.
  unfold rows_of_item. cbn [fst snd]. rewrite filter_rows_of_other; auto.
Qed.

(** The rows that carry identifier [I] are rows of the product [I]. *)
Lemma filter_rows_of_products (I : str) (products : dict (dict value))
      (info : dict value) :
  I <> [] -> NoDup (map fst products) -> dict_get products I = Some info ->
  filter (fun r => str_eqb (SKU r) I) (flat_map rows_of_item products)
  = filter (fun r => str_eqb (SKU r) I) (rows_of_item (I, info)).
Proof.
  intros HI. induction products as [|[k v] products IH]; intros Hnd Hget; [discriminate|].
  cbn [map fst] in Hnd. inversion Hnd as [|? ? Hk Hnd']; subst.
  cbn [dict_get] in Hget. cbn [flat_map]. rewrite filter_app.
  destruct (str_eqb k I) eqn:E.
  - apply str_eqb_eq in E. inversion Hget; subst.
    rewrite (filter_rows_of_others I products HI Hk). apply app_nil_r.
  - apply str_eqb_neq in E. unfold rows_of_item at 1. cbn [fst snd].
    rewrite filter_rows_of_other by auto. now apply IH.
Qed.
End PipelineFacts.

Lemma last_write_none (I g : str) (data : list record) :
  (forall r, In r data -> writes I g r = false) -> last_write I g data = None.
Proof.
  intros H. unfold last_write.
  assert (E : filter (writes I g) data = []).
  { induction data as [|r data IH]; [reflexivity|]. cbn [filter].
    rewrite (H r (or_introl eq_refl)). apply IH. intros r' Hr'. apply H. now right. }
  now rewrite E.
Qed.

(** What was written last is the translation of a record of the input. *)
Lemma last_write_in (I g : str) (data : list record) (v : value) :
  last_write I g data = Some v ->
  exists r, In r data /\ v = dict_get_or r (py "translation") (Some []).
Proof.
  unfold last_write. destruct (rev (filter (writes I g) data)) as [|r l] eqn:E;
    [discriminate|].
  intros H. inversion H; subst. exists r. split; [|reflexivity].
  assert (Hin : In r (rev (filter (writes I g) data))) by (rewrite E; now left).
  apply in_rev, filter_In in Hin. tauto.
Qed.

Lemma dict_get_of_In {V : Type} (d : dict V) (k : str) (v : V) :
  NoDup (map fst d) -> In (k, v) d -> dict_get d k = Some v.
Proof.
  induction d as [|[k' v'] d IH]; intros Hnd Hin; [contradiction|].
  cbn [map fst] in Hnd. inversion Hnd as [|? ? Hk Hnd']; subst.
  cbn [dict_get]. destruct Hin as [Hin|Hin].
  - inversion Hin; subst. now rewrite str_eqb_refl.
  - destruct (str_eqb k' k) eqn:E; [|now apply IH].
    apply str_eqb_eq in E. subst k'. exfalso. apply Hk.
    apply in_map_iff. exists (k, v). auto.
Qed.

(** When every translation is a string, so is every markup of
    [products]. *)
Lemma consistent_markup_strings (data : list record) (products : dict (dict value)) :
  consistent data products -> translations_are_strings data ->
  Forall markup_is_string products.
Proof.
  intros (Hnd & _ & Hinfo) Hstr. apply Forall_forall. intros [I info] Hin.
  unfold markup_is_string, dict_get_or. cbn [snd].
  pose proof (dict_get_of_In products I info Hnd Hin) as Hget.
  rewrite (Hinfo I info (py "body_html") Hget) by now right.
  destruct (last_write I (py "body_html") data) as [v|] eqn:E; [|discriminate].
  apply last_write_in in E. destruct E as (r & Hr & ->). now apply Hstr.
Qed.

Lemma unique_key {V : Type} (d : dict V) (k : str) (v : V) :
  NoDup (map fst d) -> dict_get d k = Some v ->
  length (filter (fun e => str_eqb (fst e) k) d) = 1%nat.
Proof.
  induction d as [|[k' v'] d IH]; intros Hnd Hget; [discriminate|].
  cbn [map fst] in Hnd. inversion Hnd as [|? ? Hk Hnd']; subst.
  cbn [dict_get] in Hget. cbn [filter fst]. destruct (str_eqb k' k) eqn:E.
  - apply str_eqb_eq in E. subst k'. cbn [length]. f_equal.
    assert (G : forall l : dict V, ~ In k (map fst l) ->
                filter (fun e => str_eqb (fst e) k) l = []).
    { induction l as [|[a b] l IHl]; intros Hn; [reflexivity|].
      cbn [map fst In] in Hn. cbn [filter fst].
      assert (Ea : str_eqb a k = false) by (apply str_eqb_neq; tauto).
      rewrite Ea. apply IHl. tauto. }
    now rewrite G.
  - now apply IH.
Qed.



(** * The claims *)

(** C1. For every product whose markup is a string, with N the number of
    pairs the nutrient splitter yields on the product's nutrient block, the
    row builder returns exactly max(1, N) rows; row 0 carries the SKU and no
    other row has a non-empty SKU; every row of index 1..N-1 has its eight
    product-level columns empty and carries the pair of the same index, and
    row 0 carries pair 0. *)
Theorem rows_per_product {L : StrLower} {P : HtmlParser}
        (sku : str) (title : value) (body_html : str) (h : heap) :
  let pairs := parse_nutrients (field_of body_html [py "Živiny"]) in
  exists rows h',
    build_rows_for_product sku title (Some body_html) h = Ok (rows, h')
    /\ length rows = Nat.max 1 (length pairs)
    /\ (exists r0, nth_error rows 0 = Some r0 /\ SKU r0 = sku /\ Title r0 = title)
    /\ (forall i r, nth_error rows i = Some r -> SKU r <> [] -> i = 0%nat)
    /\ (forall i r, (1 <= i)%nat -> nth_error rows i = Some r ->
                    Forall (eq (Some [])) (product_columns r)
                    /\ nth_error pairs i = Some (Nutrient r, Quantity r))
    /\ (forall r0 pair0, nth_error rows 0 = Some r0 -> nth_error pairs 0 = Some pair0 ->
                         (Nutrient r0, Quantity r0) = pair0).
Proof.
  intros pairs. eexists. eexists. split; [apply build_rows_for_product_run|].
  unfold rows_of_product. fold pairs.
  split; [apply rows_of_pairs_length|].
  split.
  { destruct (rows_of_pairs_first sku title
                (extract_description (html_parser body_html))
                (field_of body_html [py "Allergen"])
                (field_of body_html [py "Složení"; py "Ingredience"])
                (field_of body_html [py "Skladování"])
                (field_of body_html [py "Hmotnost"])
                (field_of body_html [py "Původ"]) pairs) as (r0 & H0 & Hcols).
    exists r0. split; [exact H0|]. unfold product_columns in Hcols.
    inversion Hcols. auto. }
  split.
  { intros i r Hr Hsku. destruct i as [|i]; [reflexivity|]. exfalso.
    apply rows_of_pairs_later in Hr; [|lia]. destruct Hr as (pair & _ & ->).
    now apply Hsku. }
  split.
  { intros i r Hi Hr.
    apply rows_of_pairs_later in Hr; [|exact Hi]. destruct Hr as (pair & Hp & ->).
    split; [repeat constructor|]. rewrite Hp. now destruct pair. }
  intros r0 pair0 Hr Hp. destruct pairs as [|p ps]; [discriminate|].
  rewrite rows_of_pairs_cons in Hr. cbn [nth_error] in Hr, Hp.
  inversion Hr; inversion Hp; subst. now destruct pair0.
Qed.

(** The sample product: two nutrients, so two rows, the second with its
    nutrient only. *)
Example sample_rows :
  @csv_rows czech_lower sample_parser sample_data
  = Ok [ {| SKU := py "A"; Title := Some (py "Chléb");
            Description := py "Popis produktu";
            Allergen := []; Ingredients := py "mouka, voda"; Storage := [];
            Weight := []; Origin := [];
            Nutrient := py "Tuky"; Quantity := py "1g" |};
         nutrient_row (py "Cukr", py "2g") ].
Proof. vm_compute. reflexivity. Qed.

(** C2. For every record sequence and every non-empty identifier I with at
    least one title or body record, the aggregation loop ends with exactly
    one draft for I, whose title is the translation of the last title record
    for I and whose markup is that of the last body record for I; a record
    with no identifier, or an empty one, leaves [products] as it is, and a
    record with any other field key leaves every draft's fields as they
    are. *)
Theorem aggregate_last_write_wins :
  (forall (data : list record) (I : str),
      I <> [] ->
      (exists r, In r data
                 /\ (writes I (py "title") r = true \/ writes I (py "body_html") r = true)) ->
      exists products info,
        aggregate data = Ok products
        /\ dict_get products I = Some info
        /\ length (filter (fun e => str_eqb (fst e) I) products) = 1%nat
        /\ dict_get info (py "title") = last_write I (py "title") data
        /\ dict_get info (py "body_html") = last_write I (py "body_html") data)
  /\ (forall (products : dict (dict value)) (r : record),
         truthy (dict_get_or r (py "sku") (Some [])) = false ->
         aggregate_record products r = Ok products)
  /\ (forall (products : dict (dict value)) (r : record),
         key_is (dict_get_or r (py "key") None) (py "title") = false ->
         key_is (dict_get_or r (py "key") None) (py "body_html") = false ->
         exists products',
           aggregate_record products r = Ok products'
           /\ forall I g, draft_field products' I g = draft_field products I g).
Proof.
  split; [|split].
  - intros data I HI (r & Hr & Hw).
    destruct (aggregate_consistent data) as (products & Hagg & Hnd & Hmem & Hinfo).
    assert (Hseen : existsb (mentions I) data = true).
    { apply existsb_exists. exists r. split; [exact Hr|]. unfold writes in Hw.
      destruct Hw as [Hw|Hw]; apply andb_true_iff in Hw; tauto. }
    specialize (Hmem I). rewrite Hseen in Hmem.
    apply str_eqb_neq in HI. rewrite HI in Hmem. cbn in Hmem.
    unfold dict_mem in Hmem. destruct (dict_get products I) as [info|] eqn:E; [|discriminate].
    exists products, info. repeat split; auto.
    + now apply (unique_key products I info).
    + apply (Hinfo I info _ E). now left.
    + apply (Hinfo I info _ E). now right.
  - intros products r H. unfold aggregate_record.
    now destruct (dict_get_or r (py "sku") (Some [])) as [[|c s]|].
  - intros products r Ht Hb. unfold aggregate_record. rewrite Ht, Hb.
    destruct (dict_get_or r (py "sku") (Some [])) as [[|c s]|]; [eauto| |eauto].
    eexists. split; [reflexivity|]. intros I g. unfold draft_field.
    destruct (dict_mem products (c :: s)) eqn:E; cbn [negb]; [reflexivity|].
    destruct (list_eq_dec N.eq_dec I (c :: s)) as [->|Hne].
    + rewrite dict_get_set_same. unfold dict_mem in E.
      now destruct (dict_get products (c :: s)).
    + now rewrite dict_get_set_other.
Qed.

Lemma aggregate_last_write_wins_witness :
  py "A" <> []
  /\ (exists r, In r overwritten_title_data
                /\ (writes (py "A") (py "title") r = true
                    \/ writes (py "A") (py "body_html") r = true))
  /\ exists products info,
       aggregate overwritten_title_data = Ok products
       /\ dict_get products (py "A") = Some info
       /\ length (filter (fun e => str_eqb (fst e) (py "A")) products) = 1%nat
       /\ dict_get info (py "title") = last_write (py "A") (py "title") overwritten_title_data
       /\ dict_get info (py "body_html")
          = last_write (py "A") (py "body_html") overwritten_title_data.
Proof.
  assert (H1 : py "A" <> []) by discriminate.
  assert (H2 : exists r, In r overwritten_title_data
                /\ (writes (py "A") (py "title") r = true
                    \/ writes (py "A") (py "body_html") r = true)).
  { exists (json_record "A" "title" "T1"). split; [now left | left; reflexivity]. }
  split; [exact H1 | split; [exact H2|]].
  exact (proj1 aggregate_last_write_wins overwritten_title_data (py "A") H1 H2).
Defined.

(** The draft of the sample: the second title has replaced the first. *)
Example overwritten_title :
  aggregate overwritten_title_data
  = Ok [(py "A", [(py "title", Some (py "T2"))]);
        (py "B", [(py "body_html", Some (py "b"))])]
  /\ last_write (py "A") (py "title") overwritten_title_data = Some (Some (py "T2")).
Proof. split; reflexivity. Qed.

(** C5, as stated, does not hold: an identifier whose only record has the
    field key "price" gets a draft, and a row. *)
Lemma unwritten_identifier_has_draft :
  (forall r, In r price_only_data ->
             writes (py "A") (py "title") r = false
             /\ writes (py "A") (py "body_html") r = false)
  /\ aggregate price_only_data = Ok [(py "A", [])]
  /\ @csv_rows czech_lower plain_text_parser price_only_data
     = Ok [blank_row (py "A") (Some [])].
Proof.
  split; [|split; reflexivity].
  intros r [<-|[]]. split; reflexivity.
Qed.

(** C5, amended. A non-empty identifier that some record carries, but no
    title or body record, still gets a draft, with neither title nor markup,
    and (every translation being a string, and the parser building an empty
    document from empty markup) exactly one output row: its SKU and nothing
    else. The empty identifier gets no draft. *)
Theorem unwritten_identifier_kept {L : StrLower} {P : HtmlParser} :
  (forall (data : list record) (I : str),
      empty_document (html_parser []) ->
      translations_are_strings data ->
      I <> [] ->
      (exists r, In r data /\ mentions I r = true) ->
      (forall r, In r data ->
                 writes I (py "title") r = false /\ writes I (py "body_html") r = false) ->
      exists products info rows,
        aggregate data = Ok products
        /\ dict_get products I = Some info
        /\ dict_get info (py "title") = None
        /\ dict_get info (py "body_html") = None
        /\ csv_rows data = Ok rows
        /\ filter (fun r => str_eqb (SKU r) I) rows = [blank_row I (Some [])])
  /\ (forall data, exists products,
         aggregate data = Ok products /\ dict_get products [] = None).
Proof.
  split.
  - intros data I Hempty Hstr HI (r & Hr & Hm) Hnone.
    destruct (aggregate_consistent data) as (products & Hagg & Hcons).
    pose proof Hcons as (Hnd & Hmem & Hinfo).
    assert (Hseen : existsb (mentions I) data = true).
    { apply existsb_exists. eauto. }
    pose proof (Hmem I) as HmemI. rewrite Hseen in HmemI.
    pose proof HI as HI'. apply str_eqb_neq in HI'. rewrite HI' in HmemI. cbn in HmemI.
    unfold dict_mem in HmemI.
    destruct (dict_get products I) as [info|] eqn:E; [|discriminate].
    assert (Ht : dict_get info (py "title") = None).
    { rewrite (Hinfo I info _ E) by now left. apply last_write_none.
      intros r' Hr'. now apply Hnone. }
    assert (Hb : dict_get info (py "body_html") = None).
    { rewrite (Hinfo I info _ E) by now right. apply last_write_none.
      intros r' Hr'. now apply Hnone. }
    exists products, info, (flat_map rows_of_item products).
    repeat split; auto.
    + apply csv_rows_run; [exact Hagg|]. now apply (consistent_markup_strings data).
    + rewrite (filter_rows_of_products I products info HI Hnd E).
      unfold rows_of_item, dict_get_or. cbn [fst snd]. rewrite Ht, Hb.
      cbn [py_or]. rewrite (rows_of_product_empty _ _ _ Hempty).
      cbn [filter blank_row SKU]. now rewrite str_eqb_refl.
  - intros data.
    destruct (aggregate_consistent data) as (products & Hagg & _ & Hmem & _).
    exists products. split; [exact Hagg|]. specialize (Hmem []).
    unfold dict_mem in Hmem. now destruct (dict_get products []).
Qed.

Lemma unwritten_identifier_kept_witness :
  empty_document (plain_text_parser [])
  /\ translations_are_strings price_only_data
  /\ py "A" <> []
  /\ exists products info rows,
       aggregate price_only_data = Ok products
       /\ dict_get products (py "A") = Some info
       /\ dict_get info (py "title") = None
       /\ dict_get info (py "body_html") = None
       /\ @csv_rows czech_lower plain_text_parser price_only_data = Ok rows
       /\ filter (fun r => str_eqb (SKU r) (py "A")) rows = [blank_row (py "A") (Some [])].
Proof.
  assert (H0 : empty_document (plain_text_parser [])) by reflexivity.
  assert (Hs : translations_are_strings price_only_data).
  { intros r [<-|[]]. discriminate. }
  assert (H1 : py "A" <> []) by discriminate.
  split; [exact H0 | split; [exact Hs | split; [exact H1|]]].
  apply (proj1 (@unwritten_identifier_kept czech_lower plain_text_parser)
               price_only_data (py "A") H0 Hs H1).
  - exists (json_record "A" "price" "9"). split; [now left | reflexivity].
  - intros r [<-|[]]. split; reflexivity.
Defined.

(** C3, as stated, does not hold: an item of the form [name(qty)] whose
    name holds a line feed is kept whole, with an empty quantity. *)
Lemma line_feed_item_kept_whole :
  wrapped_name_item = item_text (py "Celkové" ++ newline :: py "Tuky", py "99.7g")
  /\ parse_nutrients wrapped_name_item = [(wrapped_name_item, [])]
  /\ parse_nutrients wrapped_name_item
     <> [(py "Celkové" ++ newline :: py "Tuky", py "99.7g")].
Proof.
  split; [reflexivity|]. split; [vm_compute; reflexivity|].
  vm_compute. discriminate.
Qed.

(** C3, amended. The sample string splits into exactly its five pairs, in
    order; the empty string gives no pair; nutrients written [name(qty)]
    with no line feed inside the name or the quantity, joined by commas,
    give in order the trimmed name and the trimmed quantity of each. The
    name-and-quantity pattern matches an item exactly when an opening
    parenthesis and, after it, a closing one come before any line feed; the
    name is then the text before the first opening parenthesis and the
    quantity the text between it and the next closing one, both trimmed;
    otherwise the item is kept whole with an empty quantity. *)
Theorem parse_nutrients_items :
  parse_nutrients
    (py "Celkové Tuky(99.7g),Sacharidy(0g), Cukr(0g), Vitamin A(700), Bílkoviny(0g)")
  = [ (py "Celkové Tuky", py "99.7g"); (py "Sacharidy", py "0g");
      (py "Cukr", py "0g"); (py "Vitamin A", py "700"); (py "Bílkoviny", py "0g") ]
  /\ parse_nutrients [] = []
  /\ (forall items : list (str * str),
         forallb well_formed items = true ->
         parse_nutrients (join_comma (map item_text items)) = map trimmed items)
  /\ (forall item : str,
         re_match NUTRIENT_NAME_AND_QTY_REGEX item = name_and_qty item)
  /\ (forall (item name qty rest : str),
         re_match NUTRIENT_NAME_AND_QTY_REGEX (strip item) = Some ([name; qty], rest) ->
         strip item = name ++ lparen :: qty ++ rparen :: rest
         /\ has_char lparen name = false
         /\ has_char rparen qty = false
         /\ nutrient_pair item = (strip name, strip qty))
  /\ (forall item : str,
         name_and_qty (strip item) = None -> nutrient_pair item = (strip item, [])).
Proof.
  split; [vm_compute; reflexivity|].
  split; [reflexivity|].
  split; [|split; [exact re_match_name_and_qty|split]].
  - exact parse_nutrients_joined.
  - intros item name qty rest H. pose proof H as H'.
    rewrite re_match_name_and_qty in H'. unfold name_and_qty in H'.
    destruct (take_line_until lparen (strip item)) as [[n after]|] eqn:E1; [|discriminate].
    destruct (take_line_until rparen after) as [[q r]|] eqn:E2; [|discriminate].
    inversion H'; subst n q r.
    apply take_line_until_split in E1, E2.
    destruct E1 as (E1 & Hn & _), E2 as (E2 & Hq & _). subst after.
    repeat split; auto. unfold nutrient_pair. now rewrite H.
  - intros item H. unfold nutrient_pair. now rewrite re_match_name_and_qty, H.
Qed.

Lemma parse_nutrients_items_witness :
  forallb well_formed [(newline :: py " Cukr", py "0g"); (py "Vitamin A", py " 700 ")] = true
  /\ parse_nutrients (newline :: py " Cukr(0g),Vitamin A( 700 )")
     = [(py "Cukr", py "0g"); (py "Vitamin A", py "700")].
Proof.
  split; [reflexivity|].
  exact (proj1 (proj2 (proj2 parse_nutrients_items))
               [(newline :: py " Cukr", py "0g"); (py "Vitamin A", py " 700 ")] eq_refl).
Defined.







(** An ingredients block whose lead-in is the synonym, with a trailing
    space. *)
Example ingredience_synonym :
  fst (@extract_field czech_lower
         (Tag (py "[document]")
            [Tag (py "p") [Tag (py "strong") [NavigableString (py "Ingredience ")];
                           NavigableString (py "cukr")]])
         [py "Složení"; py "Ingredience"])
  = py "cukr".
Proof. reflexivity. Qed.




(** The description of the sample document is its first block, in full. *)
Example sample_description :
  @extract_description czech_lower sample_document = py "Popis produktu".
Proof. reflexivity. Qed.

(** C9. Only the first strong tag of a block is looked at. When its text
    holds none of the labels, the labeled-field scan passes over the block,
    whatever the block's other strong tags hold; when it holds none of the
    known markers, description extraction returns the block, whatever its
    other strong tags hold. *)
Theorem first_strong_only {L : StrLower} (soup : node) (at_p : path) (p : node)
        (ps : list (path * node)) (labels : list str)
        (at_strong : path) (strong : node) :
  find p (py "strong") = Some (at_strong, strong) ->
  ((forall label, In label labels ->
                  str_in (lower label) (lower (get_text strong)) = false) ->
   extract_field_paragraphs soup ((at_p, p) :: ps) labels
   = extract_field_paragraphs soup ps labels)
  /\ ((forall marker, In marker known_markers ->
                      str_in marker (lower (get_text strong)) = false) ->
      extract_description_paragraphs ((at_p, p) :: ps) = get_text p).
Proof.
  intros Hfind. split; intros Hnone.
  - rewrite extract_field_paragraphs_cons. unfold has_label, lead_in, normalized.
    rewrite Hfind. cbn [option_map snd].
    assert (E : existsb (fun label => str_in (lower label) (lower (get_text strong))) labels
                = false).
    { clear -Hnone. induction labels as [|l ls IH]; [reflexivity|]. cbn [existsb].
      rewrite (Hnone l (or_introl eq_refl)). apply IH. intros l' Hl'. apply Hnone. now right. }
    now rewrite E.
  - rewrite extract_description_paragraphs_cons. unfold has_marker, lead_in, normalized.
    rewrite Hfind. cbn [option_map snd].
    assert (E : existsb (fun marker => str_in marker (lower (get_text strong))) known_markers
                = false).
    { clear -Hnone. induction known_markers as [|m ms IH]; [reflexivity|]. cbn [existsb].
      rewrite (Hnone m (or_introl eq_refl)). apply IH. intros m' Hm'. apply Hnone. now right. }
    now rewrite E.
Qed.

Lemma first_strong_only_witness :
  find two_span_block (py "strong")
  = Some ([0%nat], Tag (py "strong") [NavigableString (py "Pozn.")])
  /\ find_all two_span_block (py "strong")
     = [ ([0%nat], Tag (py "strong") [NavigableString (py "Pozn.")]);
         ([2%nat], Tag (py "strong") [NavigableString (py "Allergen")]) ]
  /\ @extract_field_paragraphs czech_lower sample_document
       [([2%nat], two_span_block)] [py "Allergen"]
     = ([], sample_document)
  /\ @extract_description_paragraphs czech_lower [([0%nat], late_marker_block)]
     = py "Pozn.bezSloženílepek".
Proof.
  split; [reflexivity|]. split; [reflexivity|]. split.
  - refine (proj1 (@first_strong_only czech_lower sample_document [2%nat] two_span_block
                     [] [py "Allergen"] [0%nat]
                     (Tag (py "strong") [NavigableString (py "Pozn.")]) eq_refl) _).
    intros label [<-|[]]. reflexivity.
  - refine (proj2 (@first_strong_only czech_lower sample_document [0%nat] late_marker_block
                     [] [] [0%nat]
                     (Tag (py "strong") [NavigableString (py "Pozn.")]) eq_refl) _).
    intros marker Hin. cbv [known_markers In] in Hin.
    repeat (destruct Hin as [<-|Hin]; [reflexivity|]). destruct Hin.
Defined.

(** The sample document has no block whose first strong tag names the
    allergen label, so the field is empty although a later strong tag of a
    block does name it. *)
Example allergen_in_later_span :
  fst (@extract_field czech_lower sample_document [py "Allergen"]) = [].
Proof. reflexivity. Qed.

(** The part of C8 that holds: for a product whose markup is the empty
    string, or missing from its draft, every extraction returns the empty
    string, and the row builder returns one row with the SKU and the title
    and the eight other columns empty. The parser is taken to build an empty
    document from empty markup. *)
Lemma empty_markup_one_row {L : StrLower} {P : HtmlParser}
      (sku : str) (title : value) (h : heap) :
  empty_document (html_parser []) ->
  extract_description (html_parser []) = []
  /\ (forall labels, field_of [] labels = [])
  /\ (exists h', build_rows_for_product sku title (Some []) h
                 = Ok ([blank_row sku title], h'))
  /\ (forall info : dict value,
         dict_get info (py "body_html") = None
         \/ dict_get info (py "body_html") = Some (Some []) ->
         exists h',
           all_csv_rows_loop [(sku, info)] [] h
           = Ok ([blank_row sku (dict_get_or info (py "title") (Some []))], h')).
Proof.
  intros Hempty. split; [now apply extract_description_empty|].
  split; [intros labels; unfold field_of; now rewrite extract_field_empty|].
  split.
  - eexists. rewrite build_rows_for_product_run.
    now rewrite (rows_of_product_empty _ _ _ Hempty).
  - intros info Hbody.
    assert (E : dict_get_or info (py "body_html") (Some []) = Some []).
    { unfold dict_get_or. now destruct Hbody as [-> | ->]. }
    assert (Hstr : Forall markup_is_string [(sku, info)]).
    { repeat constructor. unfold markup_is_string. cbn [snd]. rewrite E. discriminate. }
    destruct (all_csv_rows_loop_run [(sku, info)] [] h Hstr) as (h' & Hrun).
    exists h'. rewrite Hrun. cbn [flat_map app]. unfold rows_of_item. cbn [fst snd].
    rewrite E, app_nil_r. cbn [py_or]. now rewrite (rows_of_product_empty _ _ _ Hempty).
Qed.

Example empty_markup_row :
  exists h',
    @build_rows_for_product czech_lower plain_text_parser (py "A") (Some (py "Máslo"))
      (Some []) []
    = Ok ([blank_row (py "A") (Some (py "Máslo"))], h').
Proof.
  exact (proj1 (proj2 (proj2 (@empty_markup_one_row czech_lower plain_text_parser
                                (py "A") (Some (py "Máslo")) [] eq_refl)))).
Qed.

(** C8. Missing markup is to be treated as an empty document, without
    failing. The code does so for the description only, where
    [body_html or ""] stands between [None] and the constructor: when the
    markup is [None], as after a body record whose translation is null, the
    first labeled extraction raises, and so does the whole run. *)
Theorem null_markup_raises {L : StrLower} {P : HtmlParser}
        (sku : str) (title : value) (h : heap) :
  (soup <- BeautifulSoup (Some (py_or None [])) ;; read_soup extract_description soup) h
  = Ok (extract_description (html_parser []), h ++ [html_parser []])
  /\ (s1 <- BeautifulSoup None ;;
      call_on_soup (fun s => extract_field s [py "Allergen"]) s1) h
     = Raise TypeError
  /\ build_rows_for_product sku title None h = Raise TypeError
  /\ aggregate null_markup_data
     = Ok [(py "A", [(py "title", Some (py "T")); (py "body_html", None)])]
  /\ csv_rows null_markup_data = Raise TypeError.
Proof.
  split; [|split; [reflexivity|split; [apply build_rows_for_product_none|split]]].
  - unfold bind, BeautifulSoup, read_soup. cbn [py_or]. now rewrite nth_error_last.
  - reflexivity.
  - unfold csv_rows. cbn [null_markup_data].
    change (aggregate null_markup_data)
      with (Ok [(py "A", [(py "title", Some (py "T")); (py "body_html", None)])]
            : result (dict (dict value))).
    cbn [all_csv_rows_loop]. unfold bind at 1.
    change (dict_get_or [(py "title", Some (py "T")); (py "body_html", None)]
              (py "body_html") (Some [])) with (@None str).
    now rewrite build_rows_for_product_none.
Qed.

(** Taking the lead-in out changes the document: a second extraction on the
    same object no longer finds the block. *)
Lemma extraction_seen_through_shared_reference {L : StrLower} :
  let doc := Tag (py "[document]")
               [Tag (py "p") [Tag (py "strong") [NavigableString (py "X")];
                              NavigableString (py "y")]] in
  (a <- call_on_soup (fun d => extract_field d [py "X"]) 0%nat ;;
   b <- call_on_soup (fun d => extract_field d [py "X"]) 0%nat ;;
   ret (a, b)) [doc]
  = Ok ((py "y", []),
        [Tag (py "[document]") [Tag (py "p") [NavigableString (py "y")]]]).
Proof.
  intros doc.
  assert (E1 : extract_field doc [py "X"]
               = (py "y", Tag (py "[document]") [Tag (py "p") [NavigableString (py "y")]])).
  { unfold extract_field, doc. cbn [find_all descendants contents_from filter map app
                                     under fst snd is_tag].
    change (str_eqb (py "p") (py "p")) with true.
    change (str_eqb (py "strong") (py "p")) with false. cbv iota.
    cbn [extract_field_paragraphs].
    change (find (Tag (py "p") [Tag (py "strong") [NavigableString (py "X")];
                                NavigableString (py "y")]) (py "strong"))
      with (Some ([0%nat], Tag (py "strong") [NavigableString (py "X")])).
    cbv iota beta. cbn [extract_field_labels].
    change (get_text (Tag (py "strong") [NavigableString (py "X")])) with (py "X").
    rewrite str_in_refl. reflexivity. }
  unfold bind, call_on_soup, ret. cbn [nth_error]. rewrite E1. cbn [update_nth nth_error].
  reflexivity.
Qed.

(** C10. Labeled-field extraction takes the lead-in of the block it stops at
    out of the document it is given, and a second extraction on the same
    object sees that. But each labeled field is extracted from a document
    built for that call alone: whatever the heap holds, the value is that of
    the markup and the label set, the heap only grows, and the objects
    already there are left as they are. So the builder's rows are those of
    the fields taken one by one, and two extractions give the same values in
    either order. *)
Theorem field_extractions_independent {L : StrLower} {P : HtmlParser} :
  (forall (markup : str) (labels : list str) (h : heap),
      (s <- BeautifulSoup (Some markup) ;;
       call_on_soup (fun d => extract_field d labels) s) h
      = Ok (field_of markup labels, h ++ [document_after markup labels]))
  /\ (forall (sku : str) (title : value) (body_html : str) (h : heap),
         build_rows_for_product sku title (Some body_html) h
         = Ok (rows_of_product sku title body_html, h ++ documents_built body_html))
  /\ (forall (markup : str) (la lb : list str) (h : heap),
         let field labels :=
           s <- BeautifulSoup (Some markup) ;;
           call_on_soup (fun d => extract_field d labels) s in
         (a <- field la ;; b <- field lb ;; ret (a, b)) h
         = Ok ((field_of markup la, field_of markup lb),
               h ++ [document_after markup la; document_after markup lb])
         /\ (b <- field lb ;; a <- field la ;; ret (a, b)) h
            = Ok ((field_of markup la, field_of markup lb),
                  h ++ [document_after markup lb; document_after markup la]))
  /\ (exists (doc : node) (labels : list str) (first second : str) (h' : heap),
         (a <- call_on_soup (fun d => extract_field d labels) 0%nat ;;
          b <- call_on_soup (fun d => extract_field d labels) 0%nat ;;
          ret (a, b)) [doc]
         = Ok ((first, second), h')
         /\ first <> second)
  /\ (forall (doc : node) (labels : list str),
         match List.find (fun e => has_label labels (snd e)) (find_all doc (py "p")) with
         | Some (at_p, p) =>
             subtree_at at_p doc = Some p
             /\ snd (extract_field doc labels) = replace_at at_p (without_lead_in p) doc
             /\ subtree_at at_p (snd (extract_field doc labels))
                = Some (without_lead_in p)
         | None => snd (extract_field doc labels) = doc
         end).
Proof.
  assert (H1 : forall (markup : str) (labels : list str) (h : heap),
      (s <- BeautifulSoup (Some markup) ;;
       call_on_soup (fun d => extract_field d labels) s) h
      = Ok (field_of markup labels, h ++ [document_after markup labels])).
  { intros markup labels h. unfold bind, BeautifulSoup, call_on_soup, field_of, document_after.
    rewrite nth_error_last.
    destruct (extract_field (html_parser markup) labels) as [a doc'].
    now rewrite update_nth_last. }
  split; [exact H1|]. split; [apply @build_rows_for_product_run|]. split.
  - intros markup la lb h field. subst field. split.
    + unfold bind at 1. rewrite H1. unfold bind at 1. rewrite H1.
      unfold ret. now rewrite <- app_assoc.
    + unfold bind at 1. rewrite H1. unfold bind at 1. rewrite H1.
      unfold ret. now rewrite <- app_assoc.
  - split; [|exact extract_field_document].
    eexists. exists [py "X"]. eexists. eexists. eexists.
    split; [apply extraction_seen_through_shared_reference | discriminate].
Qed.

(** * Further properties *)

(** ** The keys of [products] and of its drafts *)

Lemma dict_mem_keys {V : Type} (d : dict V) (k : str) :
  dict_mem d k = existsb (fun k' => str_eqb k' k) (map fst d).
Proof.
  unfold dict_mem. induction d as [|[k' v] d IH]; cbn [dict_get map fst existsb];
    [reflexivity|].
  destruct (str_eqb k' k); [reflexivity | exact IH].
Qed.

Lemma dict_get_In {V : Type} (d : dict V) (k : str) (v : V) :
  dict_get d k = Some v -> In (k, v) d.
Proof.
  induction d as [|[k' v'] d IH]; cbn [dict_get]; [discriminate|].
  destruct (str_eqb k' k) eqn:E.
  - apply str_eqb_eq in E. intros H. inversion H; subst. now left.
  - intros H. right. now apply IH.
Qed.

Lemma Forall_dict_set {V : Type} (Q : str * V -> Prop) (d : dict V) (k : str) (v : V) :
  Forall Q d -> Q (k, v) -> Forall Q (dict_set d k v).
Proof.
  intros Hd Hkv. induction Hd as [|[k' v'] d Hk' Hd IH]; cbn [dict_set].
  - now constructor.
  - destruct (str_eqb k' k); constructor; auto.
Qed.

Lemma draft_keys_ok_set (info : dict value) (g : str) (v : value) :
  draft_keys_ok info -> is_field g -> draft_keys_ok (dict_set info g v).
Proof.
  intros [Hnd Hkeys] Hg. split; [now apply dict_set_NoDup|].
  intros g'. rewrite dict_set_keys. destruct (dict_mem info g); [apply Hkeys|].
  intros Hin. apply in_app_or in Hin. destruct Hin as [Hin|[<-|[]]]; auto.
Qed.

(** One record of the loop: an identifier seen for the first time goes
    last, and no draft gets a key other than the two fields. *)
Lemma aggregate_record_keys (products products' : dict (dict value)) (r : record) :
  Forall (fun e => draft_keys_ok (snd e)) products ->
  aggregate_record products r = Ok products' ->
  map fst products' = map fst products ++ first_seen (map fst products) [sku_of r]
  /\ Forall (fun e => draft_keys_ok (snd e)) products'.
Proof.
  intros Hok. unfold aggregate_record, sku_of.
  destruct (dict_get_or r (py "sku") (Some [])) as [[|c s]|]; cbn [py_or first_seen].
  - intros H. inversion H; subst. rewrite str_eqb_refl. cbn [orb].
    now rewrite app_nil_r.
  - set (K := c :: s). rewrite <- dict_mem_keys.
    assert (EK : str_eqb K [] = false) by (apply str_eqb_neq; discriminate).
    rewrite EK. cbn [orb].
    set (products1 := if negb (dict_mem products K) then dict_set products K [] else products).
    assert (H1 : map fst products1
                 = map fst products ++ (if dict_mem products K then [] else [K])
                 /\ dict_mem products1 K = true
                 /\ Forall (fun e => draft_keys_ok (snd e)) products1).
    { subst products1. destruct (dict_mem products K) eqn:E; cbn [negb].
      - rewrite app_nil_r. auto.
      - rewrite dict_set_keys, E. split; [reflexivity|]. split.
        + unfold dict_mem. now rewrite dict_get_set_same.
        + apply Forall_dict_set; [exact Hok|]. split; [constructor | intros g []]. }
    destruct H1 as (Hkeys1 & Hmem1 & Hok1).
    assert (Hset : forall g v info,
               is_field g -> dict_get products1 K = Some info ->
               map fst (dict_set products1 K (dict_set info g v))
               = map fst products ++ (if dict_mem products K then [] else [K])
               /\ Forall (fun e => draft_keys_ok (snd e))
                         (dict_set products1 K (dict_set info g v))).
    { intros g v info Hg Hget. rewrite dict_set_keys, Hmem1. split; [exact Hkeys1|].
      apply Forall_dict_set; [exact Hok1|]. cbn [snd]. apply draft_keys_ok_set; [|exact Hg].
      apply dict_get_In in Hget. rewrite Forall_forall in Hok1.
      exact (Hok1 _ Hget). }
    unfold dict_mem in Hmem1.
    destruct (dict_get products1 K) as [info|] eqn:Hget; [|discriminate].
    destruct (key_is (dict_get_or r (py "key") None) (py "title"));
      [|destruct (key_is (dict_get_or r (py "key") None) (py "body_html"))];
      intros H; inversion H; subst products'.
    + apply Hset; [now left | reflexivity].
    + apply Hset; [now right | reflexivity].
    + auto.
  - intros H. inversion H; subst. now rewrite app_nil_r.
Qed.

Lemma first_seen_cons (seen : list str) (sku : str) (rest : list str) :
  first_seen seen (sku :: rest)
  = first_seen seen [sku] ++ first_seen (seen ++ first_seen seen [sku]) rest.
Proof.
  cbn [first_seen].
  destruct (str_eqb sku [] || existsb (fun k => str_eqb k sku) seen); cbn [app].
  - now rewrite app_nil_r.
  - reflexivity.
Qed.

Lemma aggregate_from_keys (data : list record) :
  forall products products',
    Forall (fun e => draft_keys_ok (snd e)) products ->
    aggregate_from products data = Ok products' ->
    map fst products' = map fst products ++ first_seen (map fst products) (map sku_of data)
    /\ Forall (fun e => draft_keys_ok (snd e)) products'.
Proof.
  induction data as [|r data IH]; intros products products' Hok; cbn [aggregate_from map].
  - intros H. inversion H; subst. cbn [first_seen]. now rewrite app_nil_r.
  - destruct (aggregate_record products r) as [products1|e] eqn:E; [|discriminate].
    intros H. destruct (aggregate_record_keys _ _ _ Hok E) as [Hkeys1 Hok1].
    destruct (IH _ _ Hok1 H) as [Hkeys Hok'].
    split; [|exact Hok'].
    now rewrite Hkeys, Hkeys1, (first_seen_cons _ (sku_of r) (map sku_of data)), app_assoc.
Qed.

(** X1. The aggregation loop keeps the identifiers in the order in which
    the input first shows them: the keys of [products] are the non-empty
    identifiers of the records, each once, in first-seen order. *)
Theorem products_in_first_seen_order (data : list record) :
  exists products,
    aggregate data = Ok products
    /\ map fst products = first_seen [] (map sku_of data).
Proof.
  destruct (aggregate_consistent data) as (products & Hrun & _).
  exists products. split; [exact Hrun|].
  now destruct (aggregate_from_keys data [] products (Forall_nil _) Hrun).
Qed.

Example first_seen_order_sample :
  option_map (map fst)
    match aggregate [ json_record "B" "title" "b1"; json_record "" "title" "x";
                      json_record "A" "price" "9"; json_record "B" "body_html" "b2";
                      json_record "A" "title" "a" ] with
    | Ok products => Some products
    | Raise _ => None
    end
  = Some [py "B"; py "A"].
Proof. reflexivity. Qed.

(** X2. A draft has a key exactly when some record wrote that field for its
    identifier, and the only keys a draft ever has are the title and the
    markup, each once. *)
Theorem draft_keys_written (data : list record) :
  exists products,
    aggregate data = Ok products
    /\ forall I info,
         In (I, info) products ->
         NoDup (map fst info)
         /\ forall g, In g (map fst info)
                      <-> is_field g /\ last_write I g data <> None.
Proof.
  destruct (aggregate_consistent data) as (products & Hrun & Hnd & _ & Hinfo).
  exists products. split; [exact Hrun|]. intros I info Hin.
  destruct (aggregate_from_keys data [] products (Forall_nil _) Hrun) as [_ Hok].
  rewrite Forall_forall in Hok. destruct (Hok _ Hin) as [Hnd' Hkeys]. cbn [snd] in *.
  split; [exact Hnd'|]. intros g.
  pose proof (dict_get_of_In products I info Hnd Hin) as Hget.
  split.
  - intros Hg. split; [now apply Hkeys|].
    rewrite <- (Hinfo I info g Hget (Hkeys g Hg)). now apply dict_get_in_keys.
  - intros [Hg Hw]. apply dict_get_in_keys. now rewrite (Hinfo I info g Hget Hg).
Qed.

(** ** When the run fails, and the SKU column when it does not *)

Section RunFacts.
Context {L : StrLower} {P : HtmlParser}.

(** The row loop goes through [products] in order: it stops with a
    [TypeError] at the first markup that is [None]; with none, it returns
    the rows of every product, one product after the other. *)
Lemma all_csv_rows_loop_cases (items : dict (dict value)) :
  forall (acc : list row) (h : heap),
    (Forall markup_is_string items
     /\ exists h', all_csv_rows_loop items acc h
                   = Ok (acc ++ flat_map rows_of_item items, h'))
    \/ (Exists markup_is_null items
        /\ all_csv_rows_loop items acc h = Raise TypeError).
Proof.
  induction items as [|[sku info] items IH]; intros acc h.
  - left. split; [constructor|]. exists h. cbn. now rewrite app_nil_r.
  - cbn [all_csv_rows_loop]. unfold bind.
    destruct (dict_get_or info (py "body_html") (Some [])) as [body|] eqn:Eb.
    + rewrite build_rows_for_product_run.
      destruct (IH (acc ++ rows_of_product sku (dict_get_or info (py "title") (Some [])) body)
                   (h ++ documents_built body))
        as [[Hstr (h' & Hrun)]|[Hnull Hrun]].
      * left. split.
        -- constructor; [|exact Hstr]. unfold markup_is_string. cbn [snd].
           rewrite Eb. discriminate.
        -- exists h'. rewrite Hrun. cbn [flat_map]. unfold rows_of_item at 2.
           cbn [fst snd]. now rewrite Eb, py_or_string, app_assoc.
      * right. split; [now apply Exists_cons_tl | exact Hrun].
    + right. split.
      * apply Exists_cons_hd. exact Eb.
      * now rewrite build_rows_for_product_none.
Qed.

Lemma filter_has_sku_nutrient_rows (pairs : list (str * str)) :
  filter has_sku (map nutrient_row pairs) = [].
Proof. induction pairs as [|pair pairs IH]; [reflexivity | exact IH]. Qed.

(** The rows of a product: one with its SKU, then rows without. *)
Lemma map_SKU_rows_of_item (e : str * dict value) :
  fst e <> [] -> map SKU (filter has_sku (rows_of_item e)) = [fst e].
Proof.
  destruct e as [sku info]. cbn [fst]. intros Hne. apply str_eqb_neq in Hne.
  unfold rows_of_item, rows_of_product. cbn [fst snd].
  destruct (parse_nutrients _) as [|pair pairs].
  - unfold rows_of_pairs. cbn [filter]. unfold has_sku at 1. cbn [SKU].
    rewrite Hne. reflexivity.
  - rewrite rows_of_pairs_cons. cbn [filter]. unfold has_sku at 1. cbn [SKU].
    rewrite Hne. cbn [negb map SKU]. now rewrite filter_has_sku_nutrient_rows.
Qed.

Lemma map_SKU_rows_of_items (items : dict (dict value)) :
  Forall (fun e => fst e <> []) items ->
  map SKU (filter has_sku (flat_map rows_of_item items)) = map fst items.
Proof.
  induction 1 as [|e items He _ IH]; [reflexivity|].
  cbn [flat_map map]. rewrite filter_app, map_app, IH, (map_SKU_rows_of_item e He).
  reflexivity.
Qed.

Lemma consistent_keys_nonempty (data : list record) (products : dict (dict value)) :
  consistent data products -> Forall (fun e => fst e <> []) products.
Proof.
  intros (Hnd & Hmem & _). apply Forall_forall. intros [I info] Hin. cbn [fst].
  intros ->. specialize (Hmem []). unfold dict_mem in Hmem.
  rewrite (dict_get_of_In products [] info Hnd Hin) in Hmem. discriminate.
Qed.

(** X3. The run fails exactly when, for some non-empty identifier, the last
    body record has a null translation; it then stops on a [TypeError]. A
    null that a later body record of the same identifier overwrites with a
    string does no harm, and no title makes the run fail. *)
Theorem csv_rows_fails_on_null_markup (data : list record) :
  (csv_rows data = Raise TypeError
   <-> exists I, I <> [] /\ last_write I (py "body_html") data = Some None)
  /\ ((exists rows, csv_rows data = Ok rows)
      <-> forall I, I <> [] -> last_write I (py "body_html") data <> Some None).
Proof.
  destruct (aggregate_consistent data) as (products & Hrun & Hc).
  pose proof (consistent_keys_nonempty _ _ Hc) as Hkeys.
  destruct Hc as (Hnd & Hmem & Hinfo).
  assert (Hnull : Exists markup_is_null products
                  <-> exists I, I <> [] /\ last_write I (py "body_html") data = Some None).
  { rewrite Exists_exists. split.
    - intros ([I info] & Hin & Hbody). exists I.
      rewrite Forall_forall in Hkeys. split; [exact (Hkeys _ Hin)|].
      pose proof (dict_get_of_In products I info Hnd Hin) as Hget.
      rewrite <- (Hinfo I info (py "body_html") Hget) by now right.
      unfold markup_is_null, dict_get_or in Hbody. cbn [snd] in Hbody.
      destruct (dict_get info (py "body_html")) as [[body|]|];
        [discriminate | reflexivity | discriminate].
    - intros (I & HI & Hw).
      assert (Hm : dict_mem products I = true).
      { rewrite Hmem. apply str_eqb_neq in HI. rewrite HI. cbn [negb andb].
        destruct (existsb (mentions I) data) eqn:E; [reflexivity|].
        rewrite (last_write_unseen I _ data E) in Hw. discriminate. }
      unfold dict_mem in Hm. destruct (dict_get products I) as [info|] eqn:Hget;
        [|discriminate].
      exists (I, info). split; [now apply dict_get_In|].
      unfold markup_is_null, dict_get_or. cbn [snd].
      now rewrite (Hinfo I info (py "body_html") Hget), Hw by now right. }
  assert (Hstr : Forall markup_is_string products -> ~ Exists markup_is_null products).
  { intros Hall Hex. rewrite Forall_forall in Hall. apply Exists_exists in Hex.
    destruct Hex as (e & Hin & He). exact (Hall e Hin He). }
  unfold csv_rows. rewrite Hrun.
  destruct (all_csv_rows_loop_cases products [] [])
    as [[Hall (h' & ->)]|[Hex ->]].
  - split; split.
    + discriminate.
    + intros Hw. apply Hnull in Hw. now apply Hstr in Hw.
    + intros _ I HI Hw. apply (Hstr Hall). apply Hnull. eauto.
    + eauto.
  - split; split.
    + intros _. now apply Hnull.
    + reflexivity.
    + intros (rows & Hrows). discriminate.
    + intros Hno. apply Hnull in Hex. destruct Hex as (I & HI & Hw).
      now destruct (Hno I HI).
Qed.

(** A null markup that is overwritten later does no harm; a null title
    ends up in the row. *)
Example overwritten_null_markup :
  @csv_rows czech_lower plain_text_parser
    [ [(py "sku", Some (py "A")); (py "key", Some (py "body_html"));
       (py "translation", None)];
      [(py "sku", Some (py "A")); (py "key", Some (py "title"));
       (py "translation", None)];
      json_record "A" "body_html" "" ]
  = Ok [blank_row (py "A") None].
Proof. reflexivity. Qed.

(** X4. When the run succeeds, the non-empty cells of the SKU column, read
    from the top, are the non-empty identifiers of the input, each once, in
    first-seen order: every product has one row that carries its
    identifier, and the products follow one another in that order. *)
Theorem sku_column_in_first_seen_order (data : list record) (rows : list row) :
  csv_rows data = Ok rows ->
  map SKU (filter has_sku rows) = first_seen [] (map sku_of data).
Proof.
  unfold csv_rows.
  destruct (aggregate_consistent data) as (products & Hrun & Hc). rewrite Hrun.
  destruct (aggregate_from_keys data [] products (Forall_nil _) Hrun) as [Hkeys _].
  cbn [map app] in Hkeys. rewrite <- Hkeys.
  destruct (all_csv_rows_loop_cases products [] []) as [[Hall (h' & ->)]|[Hex ->]];
    [|discriminate].
  intros H. inversion H; subst rows. cbn [app].
  apply map_SKU_rows_of_items. exact (consistent_keys_nonempty _ _ Hc).
Qed.
End RunFacts.

Lemma sku_column_in_first_seen_order_witness :
  map SKU (filter has_sku
             [ {| SKU := py "A"; Title := Some (py "Chléb");
                  Description := py "Popis produktu";
                  Allergen := []; Ingredients := py "mouka, voda"; Storage := [];
                  Weight := []; Origin := [];
                  Nutrient := py "Tuky"; Quantity := py "1g" |};
               nutrient_row (py "Cukr", py "2g") ])
  = first_seen [] (map sku_of sample_data).
Proof.
  apply (@sku_column_in_first_seen_order czech_lower sample_parser sample_data).
  vm_compute. reflexivity.
Defined.

(** ** When the splitter finds nothing *)

Lemma has_item_cons (x y : char) (rest : str) :
  has_item (x :: y :: rest)
  = (negb (x =? comma) && (y =? lparen) && has_char rparen rest) || has_item (y :: rest).
Proof. reflexivity. Qed.

Lemma has_item_tail (x : char) (s : str) : has_item (x :: s) = false -> has_item s = false.
Proof.
  destruct s as [|y rest]; [reflexivity|]. rewrite has_item_cons.
  intros H. now apply orb_false_iff in H.
Qed.

Lemma has_item_run (a b rest : str) :
  a <> [] -> has_char comma a = false ->
  has_item (a ++ lparen :: b ++ rparen :: rest) = true.
Proof.
  induction a as [|x a IH]; intros Hne Hc; [congruence|].
  apply has_char_cons in Hc. destruct Hc as [Hx Hc].
  destruct a as [|y a'].
  - cbn [app]. rewrite has_item_cons, has_char_app.
    apply N.eqb_neq in Hx. rewrite Hx.
    change (has_char rparen (rparen :: rest)) with true.
    now rewrite orb_true_r.
  - change ((x :: y :: a') ++ lparen :: b ++ rparen :: rest)
      with (x :: y :: (a' ++ lparen :: b ++ rparen :: rest)).
    rewrite has_item_cons.
    change (y :: a' ++ lparen :: b ++ rparen :: rest)
      with ((y :: a') ++ lparen :: b ++ rparen :: rest).
    rewrite IH by (discriminate || assumption). apply orb_true_r.
Qed.

(** Without such a place the item pattern matches nowhere. *)
Lemma re_match_item_none (s : str) :
  has_item s = false -> re_match NUTRIENT_ITEM_REGEX s = None.
Proof.
  intros H. destruct (re_match NUTRIENT_ITEM_REGEX s) as [[gs rest]|] eqn:E; [|reflexivity].
  apply re_match_item_sound in E. destruct E as (a & b & _ & Hs & Ha & Hc & _).
  rewrite <- app_assoc in Hs. cbn [app] in Hs. rewrite <- app_assoc in Hs. cbn [app] in Hs.
  rewrite Hs, (has_item_run a b rest Ha Hc) in H. discriminate.
Qed.

Lemma after_first_some (c : char) (s : str) :
  has_char c s = true -> exists rest, after_first c s = Some rest.
Proof.
  induction s as [|x s IH]; cbn [after_first]; [discriminate|].
  unfold has_char. cbn [existsb]. rewrite N.eqb_sym.
  destruct (x =? c); [eauto|]. exact IH.
Qed.

Lemma star_greedy_gives_way {R : Type} (cs : charset) (s : str) (k : str -> option R)
      (r : R) :
  k s = Some r -> exists r', star_greedy cs s k = Some r'.
Proof.
  intros Hk. destruct s as [|x s]; cbn [star_greedy]; [eauto|].
  destruct (charset_matches cs x); [|eauto].
  destruct (star_greedy cs s k); eauto.
Qed.

(** With one, the item pattern matches there. *)
Lemma re_match_item_some (x : char) (rest : str) :
  x <> comma -> has_char rparen rest = true ->
  exists r, re_match NUTRIENT_ITEM_REGEX (x :: lparen :: rest) = Some r.
Proof.
  intros Hx Hr. rewrite re_match_item_unfold. cbn [one_char charset_matches].
  apply N.eqb_neq in Hx. rewrite Hx. cbn [negb].
  destruct (after_first_some rparen rest Hr) as (rest' & E).
  eapply star_greedy_gives_way. rewrite after_run_eq, N.eqb_refl, E. reflexivity.
Qed.

Lemma findall_from_nothing (fuel : nat) :
  forall s, has_item s = false -> findall_from fuel NUTRIENT_ITEM_REGEX s = [].
Proof.
  induction fuel as [|fuel IH]; intros s H; [reflexivity|].
  rewrite findall_from_step, (re_match_item_none s H).
  destruct s as [|x s]; [reflexivity|]. apply IH. exact (has_item_tail x s H).
Qed.

Lemma findall_something (s : str) :
  has_item s = true -> findall NUTRIENT_ITEM_REGEX s <> [].
Proof.
  induction s as [|x s IH]; intros H; [discriminate|].
  unfold findall. rewrite findall_from_step.
  destruct (re_match NUTRIENT_ITEM_REGEX (x :: s)) as [[gs rest]|] eqn:E.
  - destruct (length rest <? length (x :: s))%nat; discriminate.
  - apply IH. destruct s as [|y rest]; [discriminate|].
    rewrite has_item_cons in H. apply orb_true_iff in H. destruct H as [H|H]; [|exact H].
    apply andb_true_iff in H. destruct H as [H Hr].
    apply andb_true_iff in H. destruct H as [Hx Hy].
    apply negb_true_iff, N.eqb_neq in Hx. apply N.eqb_eq in Hy. subst y.
    destruct (re_match_item_some x rest Hx Hr) as (r & Hm). congruence.
Qed.

(** X5. The splitter returns no pair exactly when the text has no place
    where an opening parenthesis follows a character other than a comma and
    a closing parenthesis comes later: text with no parenthesis, with an
    unclosed one, or with nothing before its opening ones yields the empty
    sequence, and any other text yields at least one pair. *)
Theorem parse_nutrients_nothing (nutrient_text : str) :
  parse_nutrients nutrient_text = [] <-> has_item nutrient_text = false.
Proof.
  rewrite parse_nutrients_map. split.
  - intros H. destruct (has_item nutrient_text) eqn:E; [|reflexivity].
    apply findall_something in E. destruct (findall _ _); [congruence | discriminate].
  - intros H. unfold findall. now rewrite findall_from_nothing.
Qed.

Example nothing_to_split :
  parse_nutrients (py "bez cukru, Salt 1g") = []
  /\ parse_nutrients (py "Salt(1g") = []
  /\ parse_nutrients (py "(1g),(2g)") = []
  /\ parse_nutrients (py "Salt 1g)(") = []
  /\ parse_nutrients (py "x(1g)") = [(py "x", py "1g")].
Proof. repeat split; reflexivity. Qed.

(** ** What the splitter returns *)

Lemma lstrip_split (s : str) : exists ws, s = ws ++ lstrip s.
Proof.
  induction s as [|c s IH]; cbn [lstrip]; [now exists []|].
  destruct (isspace c); [|now exists []].
  destruct IH as (ws & Hs). exists (c :: ws). cbn [app]. now rewrite <- Hs.
Qed.

Lemma rstrip_split (s : str) : exists ws, s = rstrip s ++ ws.
Proof.
  unfold rstrip. destruct (lstrip_split (rev s)) as (ws & Hs).
  exists (rev ws). rewrite <- rev_app_distr, <- Hs. symmetry. apply rev_involutive.
Qed.

Lemma rstrip_cons_nonspace (c : char) (s : str) :
  isspace c = false -> rstrip (c :: s) = c :: rstrip s.
Proof.
  intros Hc. unfold rstrip. cbn [rev].
  rewrite (lstrip_app_nonspace (rev s) [] c Hc), rev_app_distr. reflexivity.
Qed.

Lemma rstrip_idempotent (s : str) : rstrip (rstrip s) = rstrip s.
Proof. unfold rstrip. now rewrite rev_involutive, lstrip_idempotent. Qed.

Lemma lstrip_rstrip_lstrip (s : str) : lstrip (rstrip (lstrip s)) = rstrip (lstrip s).
Proof.
  induction s as [|c s IH]; [reflexivity|]. cbn [lstrip].
  destruct (isspace c) eqn:E; [exact IH|].
  rewrite (rstrip_cons_nonspace c s E). cbn [lstrip]. now rewrite E.
Qed.

(** [s.strip().strip()] is [s.strip()]. *)
Lemma strip_idempotent (s : str) : strip (strip s) = strip s.
Proof. unfold strip. now rewrite lstrip_rstrip_lstrip, rstrip_idempotent. Qed.

Lemma has_char_rev (c : char) (s : str) : has_char c (rev s) = has_char c s.
Proof.
  induction s as [|x s IH]; [reflexivity|]. cbn [rev]. rewrite has_char_app, IH.
  unfold has_char. cbn [existsb]. rewrite orb_false_r. apply orb_comm.
Qed.

Lemma strip_keeps_absent (c : char) (s : str) :
  has_char c s = false -> has_char c (strip s) = false.
Proof.
  intros H. unfold strip, rstrip. rewrite has_char_rev. apply lstrip_keeps_absent.
  rewrite has_char_rev. now apply lstrip_keeps_absent.
Qed.

Lemma str_in_nil (s : str) : str_in [] s = true.
Proof. destruct s; reflexivity. Qed.

Lemma str_in_trans (a b c : str) :
  str_in a b = true -> str_in b c = true -> str_in a c = true.
Proof.
  rewrite !str_in_spec. intros (p1 & q1 & ->) (p2 & q2 & ->).
  exists (p2 ++ p1), (q1 ++ q2). now rewrite <- !app_assoc.
Qed.

Lemma str_in_middle (pre sub post : str) : str_in sub (pre ++ sub ++ post) = true.
Proof. apply str_in_spec. eauto. Qed.

Lemma str_in_strip (s : str) : str_in (strip s) s = true.
Proof.
  unfold strip. destruct (lstrip_split s) as (ws1 & H1).
  destruct (rstrip_split (lstrip s)) as (ws2 & H2).
  apply str_in_spec. exists ws1, ws2. now rewrite <- H2.
Qed.

(** The pair of one item: when the item, trimmed, has an opening
    parenthesis on its first line and a closing one later on that line, the
    text before the first and the text between the two, both trimmed;
    otherwise the trimmed item and an empty quantity. *)
Lemma nutrient_pair_cases (item : str) :
  (exists name qty rest,
      strip item = name ++ lparen :: qty ++ rparen :: rest
      /\ has_char lparen name = false /\ has_char newline name = false
      /\ has_char rparen qty = false /\ has_char newline qty = false
      /\ nutrient_pair item = (strip name, strip qty))
  \/ nutrient_pair item = (strip item, []).
Proof.
  unfold nutrient_pair. rewrite re_match_name_and_qty. unfold name_and_qty.
  destruct (take_line_until lparen (strip item)) as [[name after]|] eqn:E1; [|now right].
  destruct (take_line_until rparen after) as [[qty rest]|] eqn:E2; [|now right].
  apply take_line_until_split in E1, E2.
  destruct E1 as (H1 & Hl & Hn1), E2 as (-> & Hr & Hn2).
  left. exists name, qty, rest. repeat split; auto.
Qed.

(** X6. Every name and every quantity the splitter returns is trimmed: it
    has no whitespace at either end. *)
Theorem parse_nutrients_trimmed (nutrient_text : str) :
  Forall (fun pair => strip (fst pair) = fst pair /\ strip (snd pair) = snd pair)
         (parse_nutrients nutrient_text).
Proof.
  rewrite parse_nutrients_map. apply Forall_map, Forall_forall. intros item _.
  destruct (nutrient_pair_cases item) as [(name & qty & rest & _ & _ & _ & _ & _ & ->)| ->];
    cbn [fst snd]; split; try apply strip_idempotent; reflexivity.
Qed.

(** The items the pattern finds are pieces of the text. *)
Lemma findall_from_within (fuel : nat) :
  forall s, Forall (fun item => str_in item s = true)
                   (findall_from fuel NUTRIENT_ITEM_REGEX s).
Proof.
  induction fuel as [|fuel IH]; intros s; [constructor|].
  assert (Htail : forall x s', s = x :: s' ->
                    Forall (fun item => str_in item s = true)
                           (findall_from fuel NUTRIENT_ITEM_REGEX s')).
  { intros x s' ->. eapply Forall_impl; [|apply IH]. intros item Hin.
    apply (str_in_trans item s' (x :: s') Hin).
    apply str_in_spec. exists [x], []. cbn [app]. now rewrite app_nil_r. }
  rewrite findall_from_step.
  destruct (re_match NUTRIENT_ITEM_REGEX s) as [[gs rest]|] eqn:E.
  - apply re_match_item_sound in E. destruct E as (a & b & -> & Hs & _).
    cbn [hd].
    assert (Hitem : str_in (a ++ lparen :: b ++ [rparen]) s = true).
    { apply str_in_spec. exists [], rest. exact Hs. }
    destruct (length rest <? length s)%nat.
    + constructor; [exact Hitem|]. eapply Forall_impl; [|apply IH]. intros item Hin.
      apply (str_in_trans item rest s Hin). apply str_in_spec.
      exists (a ++ lparen :: b ++ [rparen]), []. now rewrite app_nil_r.
    + destruct s as [|x s']; constructor; eauto.
  - destruct s as [|x s']; [constructor | eauto].
Qed.

(** X7. The splitter invents no text: every name and every quantity it
    returns occurs in the nutrient text as it stands. *)
Theorem parse_nutrients_within (nutrient_text : str) :
  Forall (fun pair => str_in (fst pair) nutrient_text = true
                      /\ str_in (snd pair) nutrient_text = true)
         (parse_nutrients nutrient_text).
Proof.
  rewrite parse_nutrients_map. apply Forall_map. unfold findall.
  eapply Forall_impl; [|apply findall_from_within]. cbn beta. intros item Hitem.
  pose proof (str_in_trans _ _ _ (str_in_strip item) Hitem) as Hstrip.
  destruct (nutrient_pair_cases item)
    as [(name & qty & rest & Hs & _ & _ & _ & _ & ->)| ->]; cbn [fst snd].
  - split; (eapply str_in_trans; [apply str_in_strip|]);
      (eapply str_in_trans; [|exact Hstrip]); rewrite Hs.
    + apply (str_in_middle [] name).
    + change (name ++ lparen :: qty ++ rparen :: rest)
        with (name ++ [lparen] ++ qty ++ rparen :: rest).
      rewrite app_assoc. apply str_in_middle.
  - split; [exact Hstrip | apply str_in_nil].
Qed.

Lemma prefix_before_first (c : char) (n : str) :
  forall a r r',
    a ++ c :: r = n ++ c :: r' -> has_char c n = false -> exists m, a = n ++ m.
Proof.
  induction n as [|x n IH]; intros a r r' H Hn; [now exists a|].
  apply has_char_cons in Hn. destruct Hn as [Hx Hn].
  destruct a as [|y a]; cbn [app] in H; inversion H; subst; [congruence|].
  destruct (IH a r r' H2 Hn) as (m & ->). now exists m.
Qed.

(** The pair of an item the item pattern found. *)
Lemma nutrient_pair_chars (item : str) :
  parenthesized item ->
  has_char rparen (snd (nutrient_pair item)) = false
  /\ has_char newline (snd (nutrient_pair item)) = false
  /\ (snd (nutrient_pair item) <> [] ->
      has_char lparen (fst (nutrient_pair item)) = false
      /\ has_char comma (fst (nutrient_pair item)) = false
      /\ has_char newline (fst (nutrient_pair item)) = false).
Proof.
  intros (a & b & -> & _ & Ha & _).
  destruct (nutrient_pair_cases (a ++ lparen :: b ++ [rparen]))
    as [(name & qty & rest & Hs & Hl & Hn1 & Hr & Hn2 & ->)| ->]; cbn [fst snd].
  - split; [now apply strip_keeps_absent|]. split; [now apply strip_keeps_absent|].
    intros _. split; [now apply strip_keeps_absent|].
    split; [|now apply strip_keeps_absent].
    apply strip_keeps_absent. rewrite strip_item_text in Hs.
    destruct (prefix_before_first lparen name _ _ _ Hs Hl) as (m & Hm).
    pose proof (lstrip_keeps_absent comma a Ha) as Hc.
    rewrite Hm, has_char_app in Hc. now apply orb_false_iff in Hc.
  - split; [reflexivity|]. split; [reflexivity|]. congruence.
Qed.

(** X8. No quantity the splitter returns holds a closing parenthesis or a
    line feed; and a name that comes with a non-empty quantity holds no
    opening parenthesis, no comma and no line feed. *)
Theorem parse_nutrients_characters (nutrient_text : str) :
  Forall (fun pair =>
            has_char rparen (snd pair) = false
            /\ has_char newline (snd pair) = false
            /\ (snd pair <> [] ->
                has_char lparen (fst pair) = false
                /\ has_char comma (fst pair) = false
                /\ has_char newline (fst pair) = false))
         (parse_nutrients nutrient_text).
Proof.
  rewrite parse_nutrients_map. apply Forall_map. unfold findall.
  eapply Forall_impl; [|apply findall_from_items]. cbn beta.
  exact nutrient_pair_chars.
Qed.

(** A quantity with commas and an opening parenthesis in it, and a name
    with a closing one. *)
Example marks_inside_items :
  parse_nutrients (py "Sůl) jedlá(1,5 g (max)") = [(py "Sůl) jedlá", py "1,5 g (max")].
Proof. reflexivity. Qed.

(** ** Labels and markers *)

Section LabelFacts.
Context {L : StrLower}.

Lemma has_label_same_labels (la lb : list str) (block : node) :
  (forall label, In label la <-> In label lb) ->
  has_label la block = has_label lb block.
Proof.
  intros Hset. unfold has_label. destruct (lead_in block) as [lead|]; [|reflexivity].
  apply eq_true_iff_eq. rewrite !existsb_exists.
  split; intros (label & Hin & H); exists label; (split; [now apply Hset | exact H]).
Qed.

Lemma extract_field_paragraphs_same_labels (soup : node) (ps : list (path * node))
      (la lb : list str) :
  (forall block, has_label la block = has_label lb block) ->
  extract_field_paragraphs soup ps la = extract_field_paragraphs soup ps lb.
Proof.
  intros Hsame. induction ps as [|[at_p p] ps IH]; [reflexivity|].
  rewrite !extract_field_paragraphs_cons, Hsame, IH. reflexivity.
Qed.

(** X9. What [extract_field] returns, and what it does to the document,
    depends on the labels as a set: their order and repetitions do not
    matter. With several synonyms it is the first block in document order
    that holds any of them that is taken, not the first synonym. *)
Theorem extract_field_label_set (doc : node) (la lb : list str) :
  (forall label, In label la <-> In label lb) ->
  extract_field doc la = extract_field doc lb.
Proof.
  intros Hset. unfold extract_field. apply extract_field_paragraphs_same_labels.
  intros block. now apply has_label_same_labels.
Qed.

Lemma has_label_empty_label (labels : list str) (block : node) :
  lower [] = [] -> In [] labels ->
  has_label labels block = match lead_in block with Some _ => true | None => false end.
Proof.
  intros Hlow Hin. unfold has_label. destruct (lead_in block) as [lead|]; [|reflexivity].
  apply existsb_exists. exists []. split; [exact Hin|]. rewrite Hlow. apply str_in_nil.
Qed.

(** X10. With no label at all [extract_field] finds nothing and leaves the
    document as it is. An empty label is held by every lead-in: with one
    among the labels, the first block that has a lead-in is taken, whatever
    the lead-in says. *)
Theorem extract_field_empty_labels (doc : node) :
  extract_field doc [] = ([], doc)
  /\ (lower [] = [] ->
      forall labels,
        In [] labels ->
        fst (extract_field doc labels)
        = match List.find (fun block => match lead_in block with
                                        | Some _ => true
                                        | None => false
                                        end) (blocks doc) with
          | Some block => get_text (without_lead_in block)
          | None => []
          end).
Proof.
  split.
  - unfold extract_field. induction (find_all doc (py "p")) as [|[at_p p] ps IH];
      [reflexivity|].
    rewrite extract_field_paragraphs_cons. unfold has_label.
    now destruct (lead_in p).
  - intros Hlow labels Hin. unfold extract_field, blocks.
    rewrite extract_field_paragraphs_text.
    induction (map snd (find_all doc (py "p"))) as [|block bs IH]; [reflexivity|].
    cbn [List.find]. rewrite (has_label_empty_label labels block Hlow Hin).
    destruct (lead_in block); [reflexivity | exact IH].
Qed.

(** X11. When every label the row builder asks for is, in lower case, one
    of the known markers, as it is with [str.lower], a block at which a
    labeled extraction of the builder stops is a block description
    extraction passes over, and the block the description is taken from
    supplies none of the labeled fields. *)
Theorem labeled_blocks_are_marked (labels : list str) :
  (forall label, In label builder_labels -> In (lower label) known_markers) ->
  (forall label, In label labels -> In label builder_labels) ->
  (forall block, has_label labels block = true -> has_marker block = true)
  /\ (forall doc block,
         List.find (fun b => negb (has_marker b)) (blocks doc) = Some block ->
         has_label labels block = false).
Proof.
  intros Hlow Hsub.
  assert (H : forall block, has_label labels block = true -> has_marker block = true).
  { intros block. unfold has_label, has_marker.
    destruct (lead_in block) as [lead|]; [|discriminate].
    rewrite !existsb_exists. intros (label & Hin & Hs).
    exists (lower label). split; [apply Hlow, Hsub, Hin | exact Hs]. }
  split; [exact H|]. intros doc block Hfind. apply find_some in Hfind.
  destruct Hfind as [_ Hm]. apply negb_true_iff in Hm.
  destruct (has_label labels block) eqn:E; [|reflexivity].
  apply H in E. congruence.
Qed.
End LabelFacts.

Lemma extract_field_label_set_witness :
  @extract_field czech_lower sample_document [py "Složení"; py "Ingredience"]
  = @extract_field czech_lower sample_document
      [py "Ingredience"; py "Složení"; py "Ingredience"].
Proof.
  apply (@extract_field_label_set czech_lower sample_document).
  intros label. cbn [In]. tauto.
Defined.

Lemma extract_field_empty_labels_witness :
  fst (@extract_field czech_lower sample_document [py "Hmotnost"; []])
  = py "mouka, voda".
Proof.
  exact (proj2 (@extract_field_empty_labels czech_lower sample_document) eq_refl
               [py "Hmotnost"; []] (or_intror (or_introl eq_refl))).
Defined.

Lemma labeled_blocks_are_marked_witness :
  @has_marker czech_lower
    (Tag (py "p") [Tag (py "strong") [NavigableString (py "SLOŽENÍ:")];
                   NavigableString (py " mouka, voda ")]) = true.
Proof.
  refine (proj1 (@labeled_blocks_are_marked czech_lower [py "Složení"; py "Ingredience"]
                   _ _)
                (Tag (py "p") [Tag (py "strong") [NavigableString (py "SLOŽENÍ:")];
                               NavigableString (py " mouka, voda ")])
                eq_refl).
  - intros label Hin. cbv [builder_labels In] in Hin.
    repeat (destruct Hin as [<-|Hin]; [vm_compute; tauto|]). destruct Hin.
  - intros label Hin. cbv [In] in Hin.
    repeat (destruct Hin as [<-|Hin]; [vm_compute; tauto|]). destruct Hin.
Defined.

(** ** From the records to the rows *)

Section EndToEnd.
Context {L : StrLower} {P : HtmlParser}.

Lemma flat_map_rows_of_items (F : str -> list row) (items : dict (dict value)) :
  (forall e, In e items -> rows_of_item e = F (fst e)) ->
  flat_map rows_of_item items = flat_map F (map fst items).
Proof.
  induction items as [|e items IH]; intros H; [reflexivity|].
  cbn [flat_map map]. rewrite (H e (or_introl eq_refl)), IH; [reflexivity|].
  intros e' He'. apply H. now right.
Qed.

(** X12. When the run succeeds, its rows are those of the identifiers in
    first-seen order, each built from the identifier, the translation of
    its last title record and the markup of its last body record, with the
    empty string for a field no record wrote. *)
Theorem csv_rows_end_to_end (data : list record) (rows : list row) :
  csv_rows data = Ok rows ->
  rows
  = flat_map (fun I => rows_of_product I (last_value I (py "title") data)
                         (py_or (last_value I (py "body_html") data) []))
             (first_seen [] (map sku_of data)).
Proof.
  unfold csv_rows.
  destruct (aggregate_consistent data) as (products & Hrun & Hnd & _ & Hinfo).
  rewrite Hrun.
  destruct (aggregate_from_keys data [] products (Forall_nil _) Hrun) as [Hkeys _].
  cbn [map app] in Hkeys. rewrite <- Hkeys.
  destruct (all_csv_rows_loop_cases products [] []) as [[Hall (h' & ->)]|[Hex ->]];
    [|discriminate].
  intros H. inversion H; subst rows. cbn [app].
  apply flat_map_rows_of_items. intros [I info] Hin. cbn [fst].
  pose proof (dict_get_of_In products I info Hnd Hin) as Hget.
  unfold rows_of_item, last_value, dict_get_or. cbn [fst snd].
  rewrite (Hinfo I info (py "title") Hget) by now left.
  rewrite (Hinfo I info (py "body_html") Hget) by now right.
  reflexivity.
Qed.
End EndToEnd.

Lemma csv_rows_end_to_end_witness :
  [ {| SKU := py "A"; Title := Some (py "Chléb");
       Description := py "Popis produktu";
       Allergen := []; Ingredients := py "mouka, voda"; Storage := [];
       Weight := []; Origin := [];
       Nutrient := py "Tuky"; Quantity := py "1g" |};
    nutrient_row (py "Cukr", py "2g") ]
  = flat_map (fun I => @rows_of_product czech_lower sample_parser I
                         (last_value I (py "title") sample_data)
                         (py_or (last_value I (py "body_html") sample_data) []))
             (first_seen [] (map sku_of sample_data)).
Proof.
  apply (@csv_rows_end_to_end czech_lower sample_parser sample_data).
  vm_compute. reflexivity.
Defined.

Lemma draft_keys_written_witness :
  In (py "title") (map fst [(py "title", Some (py "T2"))])
  <-> is_field (py "title")
      /\ last_write (py "A") (py "title") overwritten_title_data <> None.
Proof.
  destruct (draft_keys_written overwritten_title_data) as (products & Hrun & H).
  apply (H (py "A") [(py "title", Some (py "T2"))]).
  vm_compute in Hrun. inversion Hrun; subst products. left. reflexivity.
Defined.

Lemma parse_nutrients_characters_witness :
  has_char lparen (py "Sůl) jedlá") = false
  /\ has_char comma (py "Sůl) jedlá") = false
  /\ has_char newline (py "Sůl) jedlá") = false.
Proof.
  refine (proj2 (proj2 (@Forall_inv _ _ (py "Sůl) jedlá", py "1,5 g (max") []
                          (parse_nutrients_characters (py "Sůl) jedlá(1,5 g (max)")))) _).
  discriminate.
Defined.

(** ** The text of a tag is trimmed *)

Lemma rev_concat (l : list str) : rev (concat l) = concat (rev (map (@rev char) l)).
Proof.
  induction l as [|t l IH]; [reflexivity|].
  cbn [concat map rev]. rewrite rev_app_distr, IH, concat_app. cbn [concat].
  now rewrite app_nil_r.
Qed.

Lemma lstrip_concat (l : list str) :
  Forall (fun t => t <> [] /\ lstrip t = t) l -> lstrip (concat l) = concat l.
Proof.
  intros H. destruct H as [|t l [Hne Ht] _]; [reflexivity|].
  cbn [concat]. destruct t as [|c t]; [congruence|].
  cbn [lstrip app] in *. destruct (isspace c) eqn:E; [|reflexivity].
  exfalso. destruct (lstrip_split t) as (ws & Hws).
  apply (f_equal (@length char)) in Ht. rewrite Hws in Ht at 2.
  cbn [length] in Ht. rewrite length_app in Ht. lia.
Qed.

Lemma strip_fixed_both (t : str) : strip t = t -> lstrip t = t /\ rstrip t = t.
Proof.
  unfold strip. intros H. split; rewrite <- H.
  - apply lstrip_rstrip_lstrip.
  - apply rstrip_idempotent.
Qed.

Lemma strip_concat (l : list str) :
  Forall (fun t => t <> [] /\ strip t = t) l -> strip (concat l) = concat l.
Proof.
  intros H. unfold strip. rewrite lstrip_concat.
  - unfold rstrip. rewrite rev_concat, lstrip_concat, <- rev_concat.
    + apply rev_involutive.
    + apply Forall_rev, Forall_map. eapply Forall_impl; [|exact H].
      intros t [Hne Ht]. apply strip_fixed_both in Ht. destruct Ht as [_ Hr]. split.
      * intros E. apply Hne. rewrite <- (rev_involutive t), E. reflexivity.
      * unfold rstrip in Hr. rewrite <- Hr at 2. now rewrite rev_involutive.
  - eapply Forall_impl; [|exact H]. intros t [Hne Ht]. split; [exact Hne|].
    now apply strip_fixed_both in Ht.
Qed.

Lemma stripped_strings_trimmed (ns : list node) :
  Forall (fun t => t <> [] /\ strip t = t) (flat_map stripped_string ns).
Proof.
  induction ns as [|n ns IH]; [constructor|]. cbn [flat_map]. apply Forall_app.
  split; [|exact IH]. destruct n as [nm cs|s|s]; cbn [stripped_string]; try constructor.
  destruct (strip s) as [|c t] eqn:E; constructor; [|constructor].
  split; [discriminate|]. rewrite <- E. apply strip_idempotent.
Qed.

Lemma get_text_trimmed (n : node) : strip (get_text n) = get_text n.
Proof. rewrite get_text_strings. apply strip_concat, stripped_strings_trimmed. Qed.

(** X13. Whatever the extractors return is trimmed: the description and
    every labeled field have no whitespace at either end, although the
    strings of a block are joined without a separator. *)
Theorem extracted_text_trimmed {L : StrLower} (doc : node) (labels : list str) :
  strip (fst (extract_field doc labels)) = fst (extract_field doc labels)
  /\ strip (extract_description doc) = extract_description doc.
Proof.
  split.
  - unfold extract_field. rewrite extract_field_paragraphs_text.
    destruct (List.find _ _); [apply get_text_trimmed | reflexivity].
  - unfold extract_description. rewrite extract_description_paragraphs_text.
    destruct (List.find _ _); [apply get_text_trimmed | reflexivity].
Qed.
